(** * Operator registration (ATen/core/op_registration/op_registration.h)

    A shallow embedding of the registration front end of the c10 dispatcher:
    the [RegisterOperators::Options] builder, the legacy [RegisterOperators::op]
    shorthands, [CppFunction], [c10::dispatch], [c10::schema],
    [detail::constructSchemaOrName] and the [Library] handle.

    Conventions.
    - A C++ exception is an [outcome]: [Ok v] or [Throw e].  Methods that
      mutate [*this] are state transformers [M S A]; the state that is
      returned next to a [Throw] is the object as the exception leaves it.
    - What overload resolution and [static_assert] decide at compile time is
      a [Compile] value: the call is [Accepted], or it does not compile.
    - [c10::optional<T>] and a nullable [std::unique_ptr<T>] are [option T];
      [c10::either<L, R>] is [L + R] ([make_left] is [inl], [make_right] is
      [inr]); [std::vector<T>] is [list T] and [push_back] appends. *)

From Stdlib Require Import Ascii String List Bool Arith Lia.
From stdpp Require Import base decidable countable option list strings gmap fin_maps.

Import ListNotations.
Local Open Scope string_scope.
Local Open Scope nat_scope.
Local Open Scope list_scope.

(** ** Enumerations declared outside this header *)

(** [c10::DispatchKey] (c10/core/DispatchKey.h).  The header names the
    enumerators below; [Other n] stands for the n-th enumerator it does not
    name. *)
Module DispatchKey.
Inductive t : Type :=
| CatchAll
| CPU
| CUDA
| HIP
| MSNPU
| XLA
| Other (n : nat).

#[global] Instance eq_dec : EqDecision t.
Proof. solve_decision. Defined.

Definition to_nat (k : t) : nat :=
  match k with
  | CatchAll => 0
  | CPU => 1
  | CUDA => 2
  | HIP => 3
  | MSNPU => 4
  | XLA => 5
  | Other n => 6 + n
  end.

Definition of_nat (n : nat) : t :=
  match n with
  | 0 => CatchAll
  | 1 => CPU
  | 2 => CUDA
  | 3 => HIP
  | 4 => MSNPU
  | 5 => XLA
  | S (S (S (S (S (S m))))) => Other m
  end.

Lemma of_to_nat (k : t) : of_nat (to_nat k) = k.
Proof. by destruct k. Qed.

#[global] Instance countable : Countable t := inj_countable' to_nat of_nat of_to_nat.
End DispatchKey.

(** [c10::DeviceType] (c10/core/DeviceType.h): the five device types the
    header's switch names, and [Other n] for every remaining enumerator. *)
Module DeviceType.
Inductive t : Type :=
| CPU
| CUDA
| XLA
| HIP
| MSNPU
| Other (n : nat).

#[global] Instance eq_dec : EqDecision t.
Proof. solve_decision. Defined.
End DeviceType.

(** [c10::AliasAnalysisKind] (ATen/core/function_schema.h); the header only
    names [FROM_SCHEMA]. *)
Inductive AliasAnalysisKind : Type :=
| INTERNAL_SPECIAL_CASE
| CONSERVATIVE
| FROM_SCHEMA
| PURE_FUNCTION.

#[global] Instance AliasAnalysisKind_eq_dec : EqDecision AliasAnalysisKind.
Proof. solve_decision. Defined.

(** ** Schema model (external collaborator) *)

Record OperatorName : Type := mkOperatorName {
  op_namespace : string;
  op_name : string;
  op_overload : string
}.

#[global] Instance OperatorName_eq_dec : EqDecision OperatorName.
Proof. solve_decision. Defined.

#[global] Instance OperatorName_countable : Countable OperatorName :=
  inj_countable'
    (fun n => (op_namespace n, op_name n, op_overload n))
    (fun '(ns, n, o) => mkOperatorName ns n o)
    (fun n => match n with mkOperatorName _ _ _ => eq_refl end).

(** A function signature [Ret(Args...)] as a static type: the spelled
    argument and return types. *)
Record func_type : Type := mkFuncType {
  arg_types : list string;
  ret_types : list string
}.

#[global] Instance func_type_eq_dec : EqDecision func_type.
Proof. solve_decision. Defined.

Record FunctionSchema : Type := mkFunctionSchema {
  schema_name : OperatorName;
  arguments : list string;
  returns : list string;
  aliasAnalysisKind : AliasAnalysisKind
}.

#[global] Instance FunctionSchema_eq_dec : EqDecision FunctionSchema.
Proof. solve_decision. Defined.

(** [FunctionSchema::setAliasAnalysis]. *)
Definition setAliasAnalysis (k : AliasAnalysisKind) (s : FunctionSchema) : FunctionSchema :=
  {| schema_name := schema_name s;
     arguments := arguments s;
     returns := returns s;
     aliasAnalysisKind := k |}.

(** Preprocessor symbols the header tests. *)
Record BuildConfig : Type := mkBuildConfig {
  EXPOSE_C2_OPS : bool;
  CAFFE2_IS_XPLAT_BUILD : bool
}.

(** The condition under which the header includes the schema parser
    ([#if defined(EXPOSE_C2_OPS) || !defined(CAFFE2_IS_XPLAT_BUILD)]). *)
Definition schema_parser_in_build (build : BuildConfig) : bool :=
  EXPOSE_C2_OPS build || negb (CAFFE2_IS_XPLAT_BUILD build).

(** ** Errors *)

Inductive Error : Type :=
(* thrown by this header *)
| SchemaSpecifiedTwice
| AliasAnalysisSpecifiedTwice
| NoSchemaParserInBuild (text : string)
| KernelFunctionNull
| DeviceTypeNotOverloadable (t : DeviceType.t)
(* thrown by the schema parser *)
| MalformedSchema (text : string)
(* thrown by registration and resolution *)
| SchemaNotSpecified
| CannotInferSchema (op : OperatorName)
| InferredSchemaMismatch (op : OperatorName) (first second : nat)
| DuplicateKernels (op : OperatorName) (offending : list (option DispatchKey.t))
| SchemaMismatch (op : OperatorName)
| SlotOccupied (op : OperatorName) (key : option DispatchKey.t)
| UnknownOperator (op : OperatorName)
| NoKernelFound (op : OperatorName) (key : DispatchKey.t) (available : list DispatchKey.t).

Inductive ErrorClass : Type :=
| ConfigurationError
| ParseError
| ResolutionError
| UnsupportedDeviceError
| LogicError
| InternalAssertFailure.

#[global] Instance ErrorClass_eq_dec : EqDecision ErrorClass.
Proof. solve_decision. Defined.

Definition classify (e : Error) : ErrorClass :=
  match e with
  | SchemaSpecifiedTwice => ConfigurationError
  | AliasAnalysisSpecifiedTwice => ConfigurationError
  | NoSchemaParserInBuild _ => LogicError
  | KernelFunctionNull => InternalAssertFailure
  | DeviceTypeNotOverloadable _ => UnsupportedDeviceError
  | MalformedSchema _ => ParseError
  | SchemaNotSpecified => ConfigurationError
  | CannotInferSchema _ => ConfigurationError
  | InferredSchemaMismatch _ _ _ => ConfigurationError
  | DuplicateKernels _ _ => ConfigurationError
  | SchemaMismatch _ => ConfigurationError
  | SlotOccupied _ _ => ConfigurationError
  | UnknownOperator _ => ResolutionError
  | NoKernelFound _ _ _ => ResolutionError
  end.

Inductive outcome (A : Type) : Type :=
| Ok (a : A)
| Throw (e : Error).
Arguments Ok {A} a.
Arguments Throw {A} e.

(** State transformers that may throw. *)
Definition M (S A : Type) : Type := S -> outcome A * S.

Definition ret {S A : Type} (a : A) : M S A := fun s => (Ok a, s).

Definition throw {S A : Type} (e : Error) : M S A := fun s => (Throw e, s).

Definition bind {S A B : Type} (m : M S A) (k : A -> M S B) : M S B :=
  fun s =>
    match m s with
    | (Ok a, s') => k a s'
    | (Throw e, s') => (Throw e, s')
    end.

Definition get {S : Type} : M S S := fun s => (Ok s, s).

Definition put {S : Type} (s : S) : M S unit := fun _ => (Ok tt, s).

(** [TORCH_CHECK(cond, ...)]. *)
Definition TORCH_CHECK {S : Type} (cond : bool) (e : Error) : M S unit :=
  if cond then ret tt else throw e.

(** [TORCH_INTERNAL_ASSERT(cond, ...)]. *)
Definition TORCH_INTERNAL_ASSERT {S : Type} (cond : bool) : M S unit :=
  if cond then ret tt else throw KernelFunctionNull.

#[global] Instance M_ret {S : Type} : MRet (M S) := fun A a => ret a.
#[global] Instance M_bind {S : Type} : MBind (M S) := fun A B k m => bind m k.

(** Compile-time verdict on one call of an overloaded template. *)
Inductive Compile (A : Type) : Type :=
| Accepted (a : A)
| NotViable
| StaticAssert (msg : string).
Arguments Accepted {A} a.
Arguments NotViable {A}.
Arguments StaticAssert {A} msg.

(** ** Callables and their static types *)

(** What the header's [enable_if] and [static_assert] conditions ask of a
    template argument: [guts::is_function_type], [guts::is_functor],
    [guts::is_stateless_lambda], [std::is_base_of<OperatorKernel, _>], and the
    signature [guts::infer_function_traits_t<_>::func_type]. *)
Record CallableType : Type := mkCallableType {
  is_function_type : bool;
  is_functor : bool;
  is_stateless_lambda : bool;
  is_base_of_OperatorKernel : bool;
  signature : func_type
}.

#[global] Instance CallableType_eq_dec : EqDecision CallableType.
Proof. solve_decision. Defined.

(** A callable value: its static type, whether it is the null pointer (only
    a function pointer can be), and a name that tells callables apart. *)
Record Callable : Type := mkCallable {
  ctype : CallableType;
  is_nullptr : bool;
  ident : string
}.

#[global] Instance Callable_eq_dec : EqDecision Callable.
Proof. solve_decision. Defined.

(** A callable taken by forwarding reference ([Lambda&& lambda]): for an
    argument of type [T] the template argument [Lambda] is deduced as [T]
    when the argument is an rvalue and as [T&] when it is an lvalue.
    [std::decay_t<Lambda>] is [T] in both cases. *)
Inductive ValueCategory : Type :=
| lvalue
| rvalue.

#[global] Instance ValueCategory_eq_dec : EqDecision ValueCategory.
Proof. solve_decision. Defined.

Record DeducedType : Type := mkDeducedType {
  decay_t : CallableType;
  is_lvalue_reference : bool
}.

Definition deduce (category : ValueCategory) (T : CallableType) : DeducedType :=
  {| decay_t := T;
     is_lvalue_reference := match category with lvalue => true | rvalue => false end |}.

(** [guts::is_functor<Lambda>] and [std::is_base_of<OperatorKernel, Lambda>]
    asked of the deduced type itself, not of its decayed type.
    [guts::is_functor] (c10/util/TypeTraits.h) looks for the member
    [&Lambda::operator()], and a reference type has neither members nor base
    classes: both traits are false for [T&], whatever [T] is. *)
Definition is_functor_undecayed (Lambda : DeducedType) : bool :=
  negb (is_lvalue_reference Lambda) && is_functor (decay_t Lambda).

Definition is_base_of_OperatorKernel_undecayed (Lambda : DeducedType) : bool :=
  negb (is_lvalue_reference Lambda) && is_base_of_OperatorKernel (decay_t Lambda).

(** [KernelFunction::BoxedKernelFunction], the stack based signature
    [void(OperatorKernel* functor, const OperatorHandle& op, Stack* stack)]
    (ATen/core/boxing/KernelFunction.h). *)
Definition BoxedKernelFunction : func_type :=
  {| arg_types := ["OperatorKernel*"; "const OperatorHandle&"; "Stack*"];
     ret_types := [] |}.

Definition is_BoxedKernelFunction (ft : func_type) : bool :=
  bool_decide (ft = BoxedKernelFunction).

(** [impl::WrapFunctionIntoFunctor<FuncType, kernel_func>::type] and
    [impl::WrapFunctionIntoRuntimeFunctor<std::decay_t<T>>]: a functor
    deriving from [OperatorKernel] whose call operator has the signature of
    the wrapped function or lambda. *)
Definition WrapFunctionIntoFunctor (T : CallableType) : CallableType :=
  {| is_function_type := false;
     is_functor := true;
     is_stateless_lambda := false;
     is_base_of_OperatorKernel := true;
     signature := signature T |}.

Definition WrapFunctionIntoRuntimeFunctor (T : CallableType) : CallableType :=
  {| is_function_type := false;
     is_functor := true;
     is_stateless_lambda := false;
     is_base_of_OperatorKernel := true;
     signature := signature T |}.

(** [c10::KernelFunction] (ATen/core/boxing/KernelFunction.h): the type
    erased kernel, recorded as the factory that made it with that factory's
    template and run-time arguments.  [invalid] is the default constructed
    value. *)
Module KernelFunction.
Inductive t : Type :=
| invalid
| makeFromBoxedFunction (kernel_func : Callable)
| makeFromUnboxedFunctor (AllowLegacyTypes : bool) (KernelFunctor : CallableType)
    (constructorParameters : list string)
| makeFromUnboxedFunction (kernel_func : Callable)
| makeFromUnboxedRuntimeFunction (AllowLegacyTypes : bool) (func : Callable)
| makeFromUnboxedOnlyRuntimeFunction (func : Callable)
| makeFromUnboxedLambda (AllowLegacyTypes : bool) (lambda : Callable)
| makeFallthrough.

#[global] Instance eq_dec : EqDecision t.
Proof. solve_decision. Defined.
End KernelFunction.

(** The collaborators this header calls into: the schema parser
    ([torch::jit::parseSchema], [torch::jit::parseSchemaOrName]) and schema
    inference ([inferFunctionSchemaFlattenedReturns<func_type>(name,
    overload_name)] of infer_schema.h). *)
Class SchemaModel : Type := {
  parseSchema : string -> outcome FunctionSchema;
  parseSchemaOrName : string -> outcome (OperatorName + FunctionSchema);
  inferFunctionSchemaFlattenedReturns : func_type -> string -> string -> FunctionSchema
}.

Module detail.
(** [detail::inferFunctionSchemaFromFunctor<KernelFunctor>()]: never null,
    it is the result of [std::make_unique]. *)
Definition inferFunctionSchemaFromFunctor `{SchemaModel} (KernelFunctor : CallableType)
  : option FunctionSchema :=
  Some (inferFunctionSchemaFlattenedReturns (signature KernelFunctor) "" "").
End detail.

(** Pure computations that may throw (the parser's results). *)
Definition outcome_bind {A B : Type} (k : A -> outcome B) (o : outcome A) : outcome B :=
  match o with
  | Ok a => k a
  | Throw e => Throw e
  end.

#[global] Instance outcome_ret : MRet outcome := fun A a => Ok a.
#[global] Instance outcome_mbind : MBind outcome := fun A B k o => outcome_bind k o.

Definition lift {S A : Type} (o : outcome A) : M S A := fun s => (o, s).

(** ** [RegisterOperators::Options] *)

Module Options.

(** [KernelRegistrationConfig]: everything one [kernel(...)] call passed. *)
Record KernelRegistrationConfig : Type := mkKernelRegistrationConfig {
  dispatch_key : option DispatchKey.t;
  func : KernelFunction.t;
  inferred_function_schema : option FunctionSchema
}.

Record t : Type := mkOptions {
  schemaOrName_ : option (OperatorName + FunctionSchema);
  kernels : list KernelRegistrationConfig;
  aliasAnalysisKind_ : option AliasAnalysisKind
}.

(** The private constructor [Options()]. *)
Definition Options_ : t :=
  {| schemaOrName_ := None; kernels := []; aliasAnalysisKind_ := None |}.

Definition set_schemaOrName_ (v : OperatorName + FunctionSchema) (o : t) : t :=
  {| schemaOrName_ := Some v; kernels := kernels o; aliasAnalysisKind_ := aliasAnalysisKind_ o |}.

Definition push_back (config : KernelRegistrationConfig) (o : t) : t :=
  {| schemaOrName_ := schemaOrName_ o;
     kernels := kernels o ++ [config];
     aliasAnalysisKind_ := aliasAnalysisKind_ o |}.

Definition set_aliasAnalysisKind_ (k : AliasAnalysisKind) (o : t) : t :=
  {| schemaOrName_ := schemaOrName_ o; kernels := kernels o; aliasAnalysisKind_ := Some k |}.

(** The private [kernel(optional<DispatchKey>, KernelFunction&&,
    unique_ptr<FunctionSchema>&&)] every public overload ends in. *)
Definition kernel (dispatch_key : option DispatchKey.t) (func : KernelFunction.t)
    (inferred_function_schema : option FunctionSchema) : M t unit :=
  fun o =>
    (Ok tt,
     push_back {| dispatch_key := dispatch_key;
                  func := func;
                  inferred_function_schema := inferred_function_schema |} o).

(** [schema(FunctionSchema&&)]. *)
Definition schema_FunctionSchema (schema : FunctionSchema) : M t unit :=
  o ← get;
  TORCH_CHECK (negb (bool_decide (is_Some (schemaOrName_ o)))) SchemaSpecifiedTwice;;
  put (set_schemaOrName_ (inr schema) o).

(** [aliasAnalysis(AliasAnalysisKind)]. *)
Definition aliasAnalysis (aliasAnalysisKind : AliasAnalysisKind) : M t unit :=
  o ← get;
  TORCH_CHECK (negb (bool_decide (is_Some (aliasAnalysisKind_ o)))) AliasAnalysisSpecifiedTwice;;
  put (set_aliasAnalysisKind_ aliasAnalysisKind o).

Section WithCollaborators.
Context `{SchemaModel} (build : BuildConfig).

(** [schema(const std::string&)]: the check comes first, then the
    preprocessor picks between throwing [std::logic_error] and calling
    the parser. *)
Definition schema_string (schemaOrName : string) : M t unit :=
  o ← get;
  TORCH_CHECK (negb (bool_decide (is_Some (schemaOrName_ o)))) SchemaSpecifiedTwice;;
  if negb (EXPOSE_C2_OPS build) && CAFFE2_IS_XPLAT_BUILD build
  then throw (NoSchemaParserInBuild schemaOrName)
  else parsed ← lift (parseSchemaOrName schemaOrName);
       put (set_schemaOrName_ parsed o).

(** [kernel<BoxedKernelFunction* kernel_func>(DispatchKey)]. *)
Definition kernel_boxed (kernel_func : Callable) (dispatch_key : DispatchKey.t)
  : Compile (M t unit) :=
  if is_function_type (ctype kernel_func) && is_BoxedKernelFunction (signature (ctype kernel_func))
  then Accepted (kernel (Some dispatch_key) (KernelFunction.makeFromBoxedFunction kernel_func) None)
  else NotViable.

(** [catchAllKernel<BoxedKernelFunction* kernel_func>()]. *)
Definition catchAllKernel_boxed (kernel_func : Callable) : Compile (M t unit) :=
  if is_function_type (ctype kernel_func) && is_BoxedKernelFunction (signature (ctype kernel_func))
  then Accepted (kernel None (KernelFunction.makeFromBoxedFunction kernel_func) None)
  else NotViable.

(** [kernel<KernelFunctor>(DispatchKey, ConstructorParameters&&...)];
    [is_constructible] is
    [std::is_constructible<KernelFunctor, ConstructorParameters...>]. *)
Definition kernel_functor (KernelFunctor : CallableType) (is_constructible : bool)
    (dispatch_key : DispatchKey.t) (constructorParameters : list string)
  : Compile (M t unit) :=
  if negb (is_functor KernelFunctor) then NotViable
  else if negb (is_base_of_OperatorKernel KernelFunctor)
  then StaticAssert "Tried to register a kernel functor using the kernel<Functor>() API, but it doesn't inherit from c10::OperatorKernel."
  else if negb is_constructible
  then StaticAssert "Wrong argument list for constructor of kernel functor."
  else Accepted (kernel (Some dispatch_key)
                   (KernelFunction.makeFromUnboxedFunctor false KernelFunctor constructorParameters)
                   (detail.inferFunctionSchemaFromFunctor KernelFunctor)).

(** [catchAllKernel<KernelFunctor>(ConstructorParameters&&...)]. *)
Definition catchAllKernel_functor (KernelFunctor : CallableType) (is_constructible : bool)
    (constructorParameters : list string)
  : Compile (M t unit) :=
  if negb (is_functor KernelFunctor) then NotViable
  else if negb (is_base_of_OperatorKernel KernelFunctor)
  then StaticAssert "Tried to register a kernel functor using the kernel<Functor>() API, but it doesn't inherit from c10::OperatorKernel."
  else if negb is_constructible
  then StaticAssert "Wrong argument list for constructor of kernel functor."
  else Accepted (kernel None
                   (KernelFunction.makeFromUnboxedFunctor false KernelFunctor constructorParameters)
                   (detail.inferFunctionSchemaFromFunctor KernelFunctor)).

(** [kernel<FuncType, kernel_func>(DispatchKey)]. *)
Definition kernel_function (kernel_func : Callable) (dispatch_key : DispatchKey.t)
  : Compile (M t unit) :=
  let FuncType := ctype kernel_func in
  if negb (is_function_type FuncType) then NotViable
  else if is_BoxedKernelFunction (signature FuncType)
  then StaticAssert "Tried to register a stackbased (i.e. internal) kernel function using the public kernel<...>() API."
  else if is_nullptr kernel_func
  then StaticAssert "Kernel function cannot be nullptr"
  else Accepted (kernel (Some dispatch_key)
                   (KernelFunction.makeFromUnboxedFunction kernel_func)
                   (detail.inferFunctionSchemaFromFunctor (WrapFunctionIntoFunctor FuncType))).

(** [catchAllKernel<FuncType, kernel_func>()]. *)
Definition catchAllKernel_function (kernel_func : Callable) : Compile (M t unit) :=
  let FuncType := ctype kernel_func in
  if negb (is_function_type FuncType) then NotViable
  else if is_BoxedKernelFunction (signature FuncType)
  then StaticAssert "Tried to register a stackbased (i.e. internal) kernel function using the public kernel<...>() API."
  else if is_nullptr kernel_func
  then StaticAssert "Kernel function cannot be nullptr"
  else Accepted (kernel None
                   (KernelFunction.makeFromUnboxedFunction kernel_func)
                   (detail.inferFunctionSchemaFromFunctor (WrapFunctionIntoFunctor FuncType))).

(** [kernel<FuncType>(DispatchKey, FuncType* kernel_func)]: the null
    check is a [TORCH_INTERNAL_ASSERT] at run time. *)
Definition kernel_runtime_function (dispatch_key : DispatchKey.t) (kernel_func : Callable)
  : Compile (M t unit) :=
  let FuncType := ctype kernel_func in
  if negb (is_function_type FuncType) then NotViable
  else if is_BoxedKernelFunction (signature FuncType)
  then StaticAssert "Tried to register a stackbased (i.e. internal) kernel function using the public kernel<...>() API."
  else Accepted (TORCH_INTERNAL_ASSERT (negb (is_nullptr kernel_func));;
                 kernel (Some dispatch_key)
                   (KernelFunction.makeFromUnboxedRuntimeFunction false kernel_func)
                   (detail.inferFunctionSchemaFromFunctor (WrapFunctionIntoRuntimeFunctor FuncType))).

(** [catchAllKernel<FuncType>(FuncType* kernel_func)]. *)
Definition catchAllKernel_runtime_function (kernel_func : Callable) : Compile (M t unit) :=
  let FuncType := ctype kernel_func in
  if negb (is_function_type FuncType) then NotViable
  else if is_BoxedKernelFunction (signature FuncType)
  then StaticAssert "Tried to register a stackbased (i.e. internal) kernel function using the public kernel<...>() API."
  else Accepted (TORCH_INTERNAL_ASSERT (negb (is_nullptr kernel_func));;
                 kernel None
                   (KernelFunction.makeFromUnboxedRuntimeFunction false kernel_func)
                   (detail.inferFunctionSchemaFromFunctor (WrapFunctionIntoRuntimeFunctor FuncType))).

(** [impl_unboxedOnlyKernel<FuncType, kernel_func>(DispatchKey)]: schema
    inference is disabled, the third argument is [nullptr]. *)
Definition impl_unboxedOnlyKernel (kernel_func : Callable) (dispatch_key : DispatchKey.t)
  : Compile (M t unit) :=
  let FuncType := ctype kernel_func in
  if negb (is_function_type FuncType) then NotViable
  else if is_BoxedKernelFunction (signature FuncType)
  then StaticAssert "Tried to register a stackbased (i.e. internal) kernel function using the public kernel<...>() API."
  else if is_nullptr kernel_func
  then StaticAssert "Kernel function cannot be nullptr"
  else Accepted (kernel (Some dispatch_key)
                   (KernelFunction.makeFromUnboxedOnlyRuntimeFunction kernel_func)
                   None).

(** [impl_unboxedOnlyCatchAllKernel<FuncType, kernel_func>()]. *)
Definition impl_unboxedOnlyCatchAllKernel (kernel_func : Callable) : Compile (M t unit) :=
  let FuncType := ctype kernel_func in
  if negb (is_function_type FuncType) then NotViable
  else if is_BoxedKernelFunction (signature FuncType)
  then StaticAssert "Tried to register a stackbased (i.e. internal) kernel function using the public kernel<...>() API."
  else if is_nullptr kernel_func
  then StaticAssert "Kernel function cannot be nullptr"
  else Accepted (kernel None
                   (KernelFunction.makeFromUnboxedOnlyRuntimeFunction kernel_func)
                   None).

(** [kernel(DispatchKey, Lambda&& functor)]. *)
Definition kernel_lambda (dispatch_key : DispatchKey.t) (functor : Callable)
  : Compile (M t unit) :=
  let Lambda := ctype functor in
  if negb (is_functor Lambda && negb (is_BoxedKernelFunction (signature Lambda)))
  then NotViable
  else if is_base_of_OperatorKernel Lambda
  then StaticAssert "The kernel(x) API for registering a kernel is only meant to be used with lambdas. Your kernel is a functor."
  else if negb (is_stateless_lambda Lambda)
  then StaticAssert "The kernel(x) API for registering a kernel only works for stateless lambdas (i.e. lambdas without captures)."
  else Accepted (kernel (Some dispatch_key)
                   (KernelFunction.makeFromUnboxedLambda false functor)
                   (detail.inferFunctionSchemaFromFunctor (WrapFunctionIntoRuntimeFunctor Lambda))).

(** [catchAllKernel(Lambda&& lambda)]. *)
Definition catchAllKernel_lambda (lambda : Callable) : Compile (M t unit) :=
  let Lambda := ctype lambda in
  if negb (is_functor Lambda && negb (is_BoxedKernelFunction (signature Lambda)))
  then NotViable
  else if is_base_of_OperatorKernel Lambda
  then StaticAssert "The kernel(x) API for registering a kernel is only meant to be used with lambdas. Your kernel is a functor."
  else if negb (is_stateless_lambda Lambda)
  then StaticAssert "The kernel(x) API for registering a kernel only works for stateless lambdas (i.e. lambdas without captures)."
  else Accepted (kernel None
                   (KernelFunction.makeFromUnboxedLambda false lambda)
                   (detail.inferFunctionSchemaFromFunctor (WrapFunctionIntoRuntimeFunctor Lambda))).
End WithCollaborators.

End Options.

(** ** The dispatch registry (ATen/core/dispatch/Dispatcher.h, not part of
    this header) *)

Module Dispatcher.

(** Modelled from the spec: the [KernelEntry] of the data model, a type
    erased callable with its optional inferred schema. *)
Record KernelEntry : Type := mkKernelEntry {
  callable : KernelFunction.t;
  inferredSchema : option FunctionSchema
}.

#[global] Instance KernelEntry_eq_dec : EqDecision KernelEntry.
Proof. solve_decision. Defined.

(** Modelled from the spec: the registry slots a handle can point at, the
    schema slot of an operator, the kernel slot of an operator at a dispatch
    key or at catch-all ([None]), and the registry-wide fallback slot of a
    dispatch key. *)
Inductive Slot : Type :=
| SchemaSlot (op : OperatorName)
| KernelSlot (op : OperatorName) (key : option DispatchKey.t)
| FallbackSlot (key : DispatchKey.t).

#[global] Instance Slot_eq_dec : EqDecision Slot.
Proof. solve_decision. Defined.

(** Modelled from the spec: [RegistrationHandleRAII], the ownership token
    returned for one inserted entry.  The entry is stored with the token of
    its handle, and only that handle removes it: this is the one-shot
    revoke of the data model, as a value. *)
Record RegistrationHandleRAII : Type := mkHandle {
  target : Slot;
  token : nat
}.

#[global] Instance RegistrationHandleRAII_eq_dec : EqDecision RegistrationHandleRAII.
Proof. solve_decision. Defined.

(** Modelled from the spec: the Dispatch Registry, mapping an operator name
    to its schema, (operator, dispatch key or catch-all) to a kernel entry
    and, registry-wide, a dispatch key to a fallback entry. *)
Record t : Type := mkDispatcher {
  schemas : gmap OperatorName (nat * FunctionSchema);
  kernelsByKey : gmap (OperatorName * option DispatchKey.t) (nat * KernelEntry);
  fallbackByKey : gmap DispatchKey.t (nat * KernelEntry);
  next_token : nat
}.

(** Modelled from the spec: the registry before any registration. *)
Definition empty : t :=
  {| schemas := ∅; kernelsByKey := ∅; fallbackByKey := ∅; next_token := 0 |}.

(** Modelled from the spec: the token of the entry a slot holds, if it
    holds one (the handle with removal authority over the slot). *)
Definition owner_at (d : t) (s : Slot) : option nat :=
  match s with
  | SchemaSlot op => fst <$> schemas d !! op
  | KernelSlot op key => fst <$> kernelsByKey d !! (op, key)
  | FallbackSlot key => fst <$> fallbackByKey d !! key
  end.

(** Modelled from the spec: schema install (step 3 of the registration
    algorithm) for a name whose schema slot is empty. *)
Definition insertSchema (op : OperatorName) (schema : FunctionSchema) (d : t)
  : t * RegistrationHandleRAII :=
  ({| schemas := <[op := (next_token d, schema)]> (schemas d);
      kernelsByKey := kernelsByKey d;
      fallbackByKey := fallbackByKey d;
      next_token := S (next_token d) |},
   {| target := SchemaSlot op; token := next_token d |}).

(** Modelled from the spec: kernel install (step 4) into a free slot. *)
Definition insertKernel (op : OperatorName) (key : option DispatchKey.t)
    (entry : KernelEntry) (d : t) : t * RegistrationHandleRAII :=
  ({| schemas := schemas d;
      kernelsByKey := <[(op, key) := (next_token d, entry)]> (kernelsByKey d);
      fallbackByKey := fallbackByKey d;
      next_token := S (next_token d) |},
   {| target := KernelSlot op key; token := next_token d |}).

(** Modelled from the spec: a per-key fallback entry, registry-wide. *)
Definition insertFallback (key : DispatchKey.t) (entry : KernelEntry) (d : t)
  : t * RegistrationHandleRAII :=
  ({| schemas := schemas d;
      kernelsByKey := kernelsByKey d;
      fallbackByKey := <[key := (next_token d, entry)]> (fallbackByKey d);
      next_token := S (next_token d) |},
   {| target := FallbackSlot key; token := next_token d |}).

(** Modelled from the spec: revoking a handle removes the entry it was
    returned for and nothing else; revoking again, or after the entry is
    gone, does nothing. *)
Definition revoke (h : RegistrationHandleRAII) (d : t) : t :=
  if bool_decide (owner_at d (target h) = Some (token h))
  then match target h with
       | SchemaSlot op =>
           {| schemas := delete op (schemas d);
              kernelsByKey := kernelsByKey d;
              fallbackByKey := fallbackByKey d;
              next_token := next_token d |}
       | KernelSlot op key =>
           {| schemas := schemas d;
              kernelsByKey := delete (op, key) (kernelsByKey d);
              fallbackByKey := fallbackByKey d;
              next_token := next_token d |}
       | FallbackSlot key =>
           {| schemas := schemas d;
              kernelsByKey := kernelsByKey d;
              fallbackByKey := delete key (fallbackByKey d);
              next_token := next_token d |}
       end
  else d.

(** Modelled from the spec: revoking the handles of a list one after the
    other, front to back. *)
Definition revoke_all (hs : list RegistrationHandleRAII) (d : t) : t :=
  fold_left (fun d h => revoke h d) hs d.

(** Modelled from the spec: a retiring session revokes every handle it
    owns, in the reverse order of acquisition. *)
Definition retire (ownedHandles : list RegistrationHandleRAII) (d : t) : t :=
  revoke_all (rev ownedHandles) d.

(** Modelled from the spec: the dispatch keys at which an operator has a
    kernel, listed by a failed resolution. *)
Definition keys_with_kernels (d : t) (op : OperatorName) : list DispatchKey.t :=
  omap (fun '((o, key), _) => if bool_decide (o = op) then key else None)
       (map_to_list (kernelsByKey d)).

(** Modelled from the spec: the table lookup of dispatch resolution.  An
    operator registered catch-all ignores the key; otherwise the kernel at
    the key, else the registry-wide fallback at the key.  The result names
    the slot that served the lookup and the entry with its token. *)
Definition findKernel (d : t) (op : OperatorName) (key : DispatchKey.t)
  : option (Slot * nat * KernelEntry) :=
  match kernelsByKey d !! (op, None) with
  | Some (tok, entry) => Some (KernelSlot op None, tok, entry)
  | None =>
      match kernelsByKey d !! (op, Some key) with
      | Some (tok, entry) => Some (KernelSlot op (Some key), tok, entry)
      | None =>
          match fallbackByKey d !! key with
          | Some (tok, entry) => Some (FallbackSlot key, tok, entry)
          | None => None
          end
      end
  end.

(** Modelled from the spec: dispatch resolution, the lookup above or else a
    resolution error naming the operator, the key, and the keys that do have
    kernels. *)
Definition resolve (d : t) (op : OperatorName) (key : DispatchKey.t) : outcome KernelEntry :=
  match findKernel d op key with
  | Some (_, _, entry) => Ok entry
  | None => Throw (NoKernelFound op key (keys_with_kernels d op))
  end.

(** Modelled from the spec: [getSchema]. *)
Definition getSchema (d : t) (op : OperatorName) : outcome FunctionSchema :=
  match schemas d !! op with
  | Some (_, schema) => Ok schema
  | None => Throw (UnknownOperator op)
  end.

End Dispatcher.

(** ** [RegisterOperators] *)

Module RegisterOperators.
Import Options.

Record t : Type := mkRegisterOperators {
  registrars_ : list Dispatcher.RegistrationHandleRAII
}.

(** [RegisterOperators()]. *)
Definition RegisterOperators_ : t := {| registrars_ := [] |}.

(** What a member function of [RegisterOperators] acts on: the process-wide
    dispatcher and [*this]. *)
Definition state : Type := Dispatcher.t * t.

(** Modelled from the spec: two inferred schemas agree on the signature. *)
Definition same_signature (s1 s2 : FunctionSchema) : bool :=
  bool_decide (arguments s1 = arguments s2) && bool_decide (returns s1 = returns s2).

(** Modelled from the spec: the merge of the kernels' inferred schemas.
    The kernels are scanned in order; [first] is the first inferred schema
    seen with the position of its kernel, [i] the position of the next
    kernel.  The first kernel that disagrees with [first] is the error. *)
Fixpoint mergeInferredSchemas (op : OperatorName) (first : option (nat * FunctionSchema))
    (i : nat) (ks : list KernelRegistrationConfig) : outcome (option FunctionSchema) :=
  match ks with
  | [] => Ok (snd <$> first)
  | config :: rest =>
      match inferred_function_schema config, first with
      | None, _ => mergeInferredSchemas op first (S i) rest
      | Some s, None => mergeInferredSchemas op (Some (i, s)) (S i) rest
      | Some s, Some (j, s0) =>
          if same_signature s0 s
          then mergeInferredSchemas op first (S i) rest
          else Throw (InferredSchemaMismatch op j i)
      end
  end.

(** Modelled from the spec: [inferSchemaFromKernels_] (declared here,
    defined in op_registration.cpp).  Step 1 for a bare name: the schema is
    the merge of the kernels' inferred schemas, which must agree on the
    signature; the first mismatch is an error naming both kernels.  With
    no inferred schema at all there is nothing to resolve. *)
Definition inferSchemaFromKernels_ (opName : OperatorName) (options : Options.t)
  : outcome FunctionSchema :=
  merged ← mergeInferredSchemas opName None 0 (kernels options);
  match merged with
  | None => Throw (CannotInferSchema opName)
  | Some s =>
      Ok {| schema_name := opName;
            arguments := arguments s;
            returns := returns s;
            aliasAnalysisKind := aliasAnalysisKind s |}
  end.

(** Modelled from the spec: step 1, resolve the schema of a bundle. *)
Definition resolveSchema (options : Options.t) : outcome FunctionSchema :=
  match schemaOrName_ options with
  | None => Throw SchemaNotSpecified
  | Some (inr schema) => Ok schema
  | Some (inl name) => inferSchemaFromKernels_ name options
  end.

(** Modelled from the spec: a batch mixes a catch-all kernel with a keyed
    one. *)
Definition mixes_catchAll_and_keyed (keys : list (option DispatchKey.t)) : bool :=
  existsb (fun k => bool_decide (k = None)) keys
  && existsb (fun k => bool_decide (is_Some k)) keys.

(** Modelled from the spec: how often a batch gives a key. *)
Definition occurrences (k : option DispatchKey.t) (keys : list (option DispatchKey.t)) : nat :=
  length (filter (fun k' => k' = k) keys).

(** Modelled from the spec: the keys of a batch that are in conflict, every
    key when a catch-all kernel is mixed with keyed ones, else the keys given
    more than once. *)
Definition offending_keys (keys : list (option DispatchKey.t)) : list (option DispatchKey.t) :=
  if mixes_catchAll_and_keyed keys then keys
  else filter (fun k => 1 < occurrences k keys) keys.

(** Modelled from the spec: [checkNoDuplicateKernels_] (declared here,
    defined in op_registration.cpp).  Step 2: reject a kernel list that has
    the same dispatch key twice or mixes a catch-all kernel with a keyed
    one, reporting the operator and the offending keys. *)
Definition checkNoDuplicateKernels_ (op : OperatorName) (options : Options.t)
  : outcome unit :=
  match offending_keys (dispatch_key <$> kernels options) with
  | [] => Ok tt
  | offending => Throw (DuplicateKernels op offending)
  end.

(** Modelled from the spec: the [KernelEntry] a kernel configuration is
    stored as. *)
Definition toEntry (config : KernelRegistrationConfig) : Dispatcher.KernelEntry :=
  {| Dispatcher.callable := func config;
     Dispatcher.inferredSchema := inferred_function_schema config |}.

(** Modelled from the spec: the invariant check of step 3.  A name that
    already has a schema must be given a structurally equal one. *)
Definition checkSchemaInstall (d : Dispatcher.t) (schema : FunctionSchema) : outcome unit :=
  match Dispatcher.schemas d !! schema_name schema with
  | Some (_, existing) =>
      if bool_decide (existing = schema) then Ok tt
      else Throw (SchemaMismatch (schema_name schema))
  | None => Ok tt
  end.

(** Modelled from the spec: the invariant check of step 4.  An occupied
    slot is a fatal duplicate, the table never overwrites. *)
Definition checkSlotsFree (d : Dispatcher.t) (op : OperatorName)
    (ks : list KernelRegistrationConfig) : outcome unit :=
  match List.find (fun config =>
           bool_decide (is_Some (Dispatcher.kernelsByKey d !! (op, dispatch_key config)))) ks with
  | Some config => Throw (SlotOccupied op (dispatch_key config))
  | None => Ok tt
  end.

(** Modelled from the spec: step 3, insert the schema when the name is new;
    a handle is returned only for an inserted entry. *)
Definition installSchema (schema : FunctionSchema) (d : Dispatcher.t)
  : Dispatcher.t * list Dispatcher.RegistrationHandleRAII :=
  match Dispatcher.schemas d !! schema_name schema with
  | Some _ => (d, [])
  | None =>
      let '(d', h) := Dispatcher.insertSchema (schema_name schema) schema d in
      (d', [h])
  end.

(** Modelled from the spec: steps 4 and 5, insert every kernel of the
    batch in order and return one handle per inserted entry. *)
Fixpoint installKernels (op : OperatorName) (ks : list KernelRegistrationConfig)
    (d : Dispatcher.t) : Dispatcher.t * list Dispatcher.RegistrationHandleRAII :=
  match ks with
  | [] => (d, [])
  | config :: rest =>
      let '(d1, h) := Dispatcher.insertKernel op (dispatch_key config) (toEntry config) d in
      let '(d2, hs) := installKernels op rest d1 in
      (d2, h :: hs)
  end.

(** Modelled from the spec: [registerOp_] (declared here, defined in
    op_registration.cpp).  Steps 3 to 5: once every invariant check has
    passed the schema and the kernels are inserted and their handles are
    appended to [registrars_]; a failed check leaves the table as it was. *)
Definition registerOp_ (schema : FunctionSchema) (options : Options.t) : M state unit :=
  '(d, self) ← get;
  lift (checkSchemaInstall d schema);;
  lift (checkSlotsFree d (schema_name schema) (kernels options));;
  let '(d1, hs1) := installSchema schema d in
  let '(d2, hs2) := installKernels (schema_name schema) (kernels options) d1 in
  put (d2, {| registrars_ := registrars_ self ++ hs1 ++ hs2 |}).

(** Modelled from the spec: [checkSchemaAndRegisterOp_] (declared here,
    defined in op_registration.cpp), the registration algorithm: resolve
    the schema, check for duplicate kernels, then install. *)
Definition checkSchemaAndRegisterOp_ (config : Options.t) : M state unit :=
  schema ← lift (resolveSchema config);
  lift (checkNoDuplicateKernels_ (schema_name schema) config);;
  registerOp_ schema config.

(** [op(Options&&) &&] and [op(Options&&) &]. *)
Definition op (options : Options.t) : M state unit :=
  checkSchemaAndRegisterOp_ options.

(** Modelled from the spec: [~RegisterOperators()] (declared here, defined
    in op_registration.cpp) retires the session: every handle of
    [registrars_] is revoked, in the reverse order of acquisition. *)
Definition destroy (self : t) (d : Dispatcher.t) : Dispatcher.t :=
  Dispatcher.retire (registrars_ self) d.

(** An argument expression [std::move(options).f(...).g(...)] is evaluated
    before the call it is passed to: if the builder chain throws, the call
    is never entered. *)
Definition with_options {S : Type} (chain : M Options.t unit) (options : Options.t)
    (call : Options.t -> M S unit) : M S unit :=
  match chain options with
  | (Ok _, built) => call built
  | (Throw e, _) => throw e
  end.

Section WithCollaborators.
Context `{SchemaModel} (build : BuildConfig).

(** [op(const std::string& schemaOrName, Options&& options)]. *)
Definition op_string (schemaOrName : string) (options : Options.t) : M state unit :=
  with_options (schema_string build schemaOrName) options op.

(** [op(FunctionSchema schema, Options&& options)]. *)
Definition op_FunctionSchema (schema : FunctionSchema) (options : Options.t)
  : M state unit :=
  with_options (schema_FunctionSchema schema) options op.

(** The argument of [op(const std::string&, FuncType*, Options&&)]:
    [std::move(options).schema(schemaOrName).kernel(c10::nullopt, ...)]
    with [AllowLegacyTypes = true]. *)
Definition op_function_pointer_options (schemaOrName : string) (func : Callable)
  : M Options.t unit :=
  schema_string build schemaOrName;;
  kernel None
    (KernelFunction.makeFromUnboxedRuntimeFunction true func)
    (detail.inferFunctionSchemaFromFunctor (WrapFunctionIntoRuntimeFunctor (ctype func))).

(** [op(const std::string& schemaOrName, FuncType* func, Options&& options)]. *)
Definition op_function_pointer (schemaOrName : string) (func : Callable)
    (options : Options.t) : Compile (M state unit) :=
  let FuncType := ctype func in
  if is_function_type FuncType && negb (is_BoxedKernelFunction (signature FuncType))
  then Accepted (with_options (op_function_pointer_options schemaOrName func) options op)
  else NotViable.

(** The argument of both lambda overloads of [op]:
    [std::move(options).schema(schemaOrName).kernel(c10::nullopt, ...)]
    with [AllowLegacyTypes = true]. *)
Definition op_lambda_options (schemaOrName : string) (lambda : Callable)
  : M Options.t unit :=
  schema_string build schemaOrName;;
  kernel None
    (KernelFunction.makeFromUnboxedLambda true lambda)
    (detail.inferFunctionSchemaFromFunctor (WrapFunctionIntoRuntimeFunctor (ctype lambda))).

(** [op(const std::string& schemaOrName, Lambda&& lambda, Options&& options)],
    the overload enabled for stateless lambdas.  [category] is the value
    category of the argument [lambda] is bound to.  The [enable_if] asks
    [guts::is_functor] of [Lambda] as deduced and
    [guts::is_stateless_lambda] of [std::decay_t<Lambda>]; the
    [static_assert] asks [std::is_base_of] of [Lambda] as deduced. *)
Definition op_lambda (schemaOrName : string) (category : ValueCategory) (lambda : Callable)
    (options : Options.t) : Compile (M state unit) :=
  let Lambda := deduce category (ctype lambda) in
  if negb (is_functor_undecayed Lambda && is_stateless_lambda (decay_t Lambda)) then NotViable
  else if is_base_of_OperatorKernel_undecayed Lambda
  then StaticAssert "c10::OperatorKernel is part of the new kernel registration API and shouldn't be used together with the deprecated registration API."
  else Accepted (with_options (op_lambda_options schemaOrName lambda) options op).

(** [op(const std::string& schemaOrName, Lambda&& lambda, Options&& options)],
    the deprecated overload enabled for functors that are not stateless
    lambdas, i.e. lambdas with a capture.  The traits are asked of the same
    types as in the overload above. *)
Definition op_stateful_lambda (schemaOrName : string) (category : ValueCategory)
    (lambda : Callable) (options : Options.t) : Compile (M state unit) :=
  let Lambda := deduce category (ctype lambda) in
  if negb (is_functor_undecayed Lambda && negb (is_stateless_lambda (decay_t Lambda)))
  then NotViable
  else if is_base_of_OperatorKernel_undecayed Lambda
  then StaticAssert "c10::OperatorKernel is part of the new kernel registration API and shouldn't be used together with the deprecated registration API."
  else Accepted (with_options (op_lambda_options schemaOrName lambda) options op).
End WithCollaborators.

End RegisterOperators.

(** ** [CppFunction], [c10::dispatch], [c10::schema] *)

Module CppFunction.

Record t : Type := mkCppFunction {
  dispatch_key_ : option DispatchKey.t;
  func_ : KernelFunction.t;
  schema_ : option FunctionSchema;
  debug_ : string
}.

#[global] Instance eq_dec : EqDecision t.
Proof. solve_decision. Defined.

(** The private [CppFunction(KernelFunction func, unique_ptr<FunctionSchema>
    schema)] (declared here, defined in op_registration.cpp): the two
    members are taken from the arguments, the other two are default
    initialised. *)
Definition CppFunction_ (func : KernelFunction.t) (schema : option FunctionSchema) : t :=
  {| dispatch_key_ := None; func_ := func; schema_ := schema; debug_ := "" |}.

Definition set_dispatch_key_ (k : option DispatchKey.t) (f : t) : t :=
  {| dispatch_key_ := k; func_ := func_ f; schema_ := schema_ f; debug_ := debug_ f |}.

(** [debug(std::string d) &&]. *)
Definition debug (d : string) (f : t) : t :=
  {| dispatch_key_ := dispatch_key_ f; func_ := func_ f; schema_ := schema_ f; debug_ := d |}.

(** [makeFallthrough()]. *)
Definition makeFallthrough : t :=
  CppFunction_ KernelFunction.makeFallthrough None.

(** [makeFromBoxedFunction<func>()]. *)
Definition makeFromBoxedFunction (func : Callable) : t :=
  CppFunction_ (KernelFunction.makeFromBoxedFunction func) None.

(** [makeUnboxedOnly(Func* f)]. *)
Definition makeUnboxedOnly (f : Callable) : t :=
  CppFunction_ (KernelFunction.makeFromUnboxedOnlyRuntimeFunction f) None.

Section WithCollaborators.
Context `{SchemaModel}.

(** [explicit CppFunction(Func* f)], for function pointers. *)
Definition of_function_pointer (f : Callable) : Compile t :=
  if is_function_type (ctype f)
  then Accepted
         {| dispatch_key_ := None;
            func_ := KernelFunction.makeFromUnboxedRuntimeFunction false f;
            schema_ := detail.inferFunctionSchemaFromFunctor
                         (WrapFunctionIntoRuntimeFunctor (ctype f));
            debug_ := "" |}
  else NotViable.

(** [explicit CppFunction(Lambda&& f)], for lambdas. *)
Definition of_lambda (f : Callable) : Compile t :=
  if is_functor (ctype f)
  then Accepted
         {| dispatch_key_ := None;
            func_ := KernelFunction.makeFromUnboxedLambda false f;
            schema_ := detail.inferFunctionSchemaFromFunctor
                         (WrapFunctionIntoRuntimeFunctor (ctype f));
            debug_ := "" |}
  else NotViable.

(** What a [Func&& raw_f] can be bound to: a raw callable, or a value
    that already is a [CppFunction]. *)
Inductive Func : Type :=
| Raw (f : Callable)
| Wrapped (f : t).

(** [CppFunction f(std::forward<Func>(raw_f))]: the function pointer
    constructor, the lambda constructor, or the move constructor. *)
Definition construct (raw_f : Func) : Compile t :=
  match raw_f with
  | Wrapped f => Accepted f
  | Raw c =>
      match of_function_pointer c with
      | Accepted f => Accepted f
      | _ => of_lambda c
      end
  end.
End WithCollaborators.

End CppFunction.

Definition Compile_map {A B : Type} (g : A -> B) (c : Compile A) : Compile B :=
  match c with
  | Accepted a => Accepted (g a)
  | NotViable => NotViable
  | StaticAssert msg => StaticAssert msg
  end.

Section FreeFunctions.
Context `{SchemaModel}.

(** [c10::dispatch(c10::DispatchKey k, Func&& raw_f)]. *)
Definition dispatch (k : DispatchKey.t) (raw_f : CppFunction.Func) : Compile CppFunction.t :=
  Compile_map
    (fun f =>
       if bool_decide (k = DispatchKey.CatchAll)
       then CppFunction.set_dispatch_key_ None f
       else CppFunction.set_dispatch_key_ (Some k) f)
    (CppFunction.construct raw_f).

(** The lambda [deviceTypeToDispatchKey] of [c10::dispatch(DeviceType,
    Func&&)]; its [default:] branch is [TORCH_CHECK(false, ...)]. *)
Definition deviceTypeToDispatchKey (t : DeviceType.t) : outcome DispatchKey.t :=
  match t with
  | DeviceType.CPU => Ok DispatchKey.CPU
  | DeviceType.CUDA => Ok DispatchKey.CUDA
  | DeviceType.XLA => Ok DispatchKey.XLA
  | DeviceType.HIP => Ok DispatchKey.HIP
  | DeviceType.MSNPU => Ok DispatchKey.MSNPU
  | _ => Throw (DeviceTypeNotOverloadable t)
  end.

(** [c10::dispatch(DeviceType type, Func&& raw_f)]. *)
Definition dispatch_DeviceType (type : DeviceType.t) (raw_f : CppFunction.Func)
  : Compile (outcome CppFunction.t) :=
  match deviceTypeToDispatchKey type with
  | Ok k => Compile_map Ok (dispatch k raw_f)
  | Throw e => Compile_map (fun _ => Throw e) (CppFunction.construct raw_f)
  end.

(** [c10::schema(const char* str, AliasAnalysisKind k)]. *)
Definition schema_with_kind (str : string) (k : AliasAnalysisKind) : outcome FunctionSchema :=
  s ← parseSchema str;
  mret (setAliasAnalysis k s).

(** [c10::schema(const char* s)]. *)
Definition schema (s : string) : outcome FunctionSchema :=
  schema_with_kind s FROM_SCHEMA.

(** [c10::schema(FunctionSchema&& s)]. *)
Definition schema_FunctionSchema (s : FunctionSchema) : FunctionSchema := s.

(** [detail::constructSchemaOrName(FunctionSchema&& s)]. *)
Definition constructSchemaOrName_FunctionSchema (s : FunctionSchema)
  : OperatorName + FunctionSchema := inr s.

(** [detail::constructSchemaOrName(OperatorName&& n)]. *)
Definition constructSchemaOrName_OperatorName (n : OperatorName)
  : OperatorName + FunctionSchema := inl n.

(** [detail::constructSchemaOrName(const char* str)]. *)
Definition constructSchemaOrName (str : string) : outcome (OperatorName + FunctionSchema) :=
  s ← parseSchemaOrName str;
  match s with
  | inr schema => mret (inr (setAliasAnalysis FROM_SCHEMA schema))
  | inl name => mret (inl name)
  end.
End FreeFunctions.

(** ** [Library] *)

Module Library.

Inductive Kind : Type :=
| DEF
| IMPL
| FRAGMENT.

Record t : Type := mkLibrary {
  kind_ : Kind;
  ns_ : option string;
  dispatch_key_ : option DispatchKey.t;
  file_ : string;
  line_ : nat;
  registrars_ : list Dispatcher.RegistrationHandleRAII
}.

Definition state : Type := Dispatcher.t * t.

(** Modelled from the spec: the implicit destructor of [Library] retires
    the session, revoking the handles of [registrars_] in the reverse order
    of acquisition. *)
Definition destroy (self : t) (d : Dispatcher.t) : Dispatcher.t :=
  Dispatcher.retire (registrars_ self) d.

Section PublicTemplates.
Context `{SchemaModel}.
(** The private [_impl], [_fallback] and [_def] are defined in
    op_registration.cpp; the public templates below only build their
    arguments. *)
Variable _impl : string -> CppFunction.t -> M state unit.
Variable _fallback : CppFunction.t -> M state unit.
Variable _def : FunctionSchema -> M state unit.
Variable _def_with_function : OperatorName + FunctionSchema -> CppFunction.t -> M state unit.

(** [def(Schema&& raw_schema)] for a [const char*]. *)
Definition def (raw_schema : string) : M state unit :=
  s ← lift (schema raw_schema);
  _def s.

(** [def(NameOrSchema&& raw_name_or_schema, Func&& raw_f)] for a
    [const char*]. *)
Definition def_with_function (raw_name_or_schema : string) (raw_f : CppFunction.Func)
  : Compile (M state unit) :=
  Compile_map
    (fun f =>
       name_or_schema ← lift (constructSchemaOrName raw_name_or_schema);
       _def_with_function name_or_schema f)
    (CppFunction.construct raw_f).

(** [impl(const char* name, Func&& raw_f)]. *)
Definition impl (name : string) (raw_f : CppFunction.Func) : Compile (M state unit) :=
  Compile_map (_impl name) (CppFunction.construct raw_f).

(** [impl(const char* name, Dispatch&& key, Func&& raw_f)] for a
    [DispatchKey]. *)
Definition impl_DispatchKey (name : string) (key : DispatchKey.t) (raw_f : CppFunction.Func)
  : Compile (M state unit) :=
  match dispatch key raw_f with
  | Accepted f => impl name (CppFunction.Wrapped f)
  | NotViable => NotViable
  | StaticAssert msg => StaticAssert msg
  end.

(** [impl(const char* name, Dispatch&& key, Func&& raw_f)] for a
    [DeviceType]: the argument [dispatch(key, raw_f)] is evaluated first, and
    when the device type has no dispatch key it throws before [impl] is
    entered. *)
Definition impl_DeviceType (name : string) (type : DeviceType.t) (raw_f : CppFunction.Func)
  : Compile (M state unit) :=
  match dispatch_DeviceType type raw_f with
  | Accepted (Ok f) => impl name (CppFunction.Wrapped f)
  | Accepted (Throw e) => Accepted (throw e)
  | NotViable => NotViable
  | StaticAssert msg => StaticAssert msg
  end.

(** [impl_UNBOXED(const char* name, Func* raw_f)]. *)
Definition impl_UNBOXED (name : string) (raw_f : Callable) : Compile (M state unit) :=
  impl name (CppFunction.Wrapped (CppFunction.makeUnboxedOnly raw_f)).

(** [fallback(Func&& raw_f)]. *)
Definition fallback (raw_f : CppFunction.Func) : Compile (M state unit) :=
  Compile_map _fallback (CppFunction.construct raw_f).
End PublicTemplates.

End Library.

(** ** A small schema model to run the definitions on

    The parser reads [name] as a bare operator name and [name(args)...] as a
    full schema; like the parser of the code base it does not choose an
    alias analysis kind, which leaves the schema at the conservative
    default.  Inference copies the static types. *)

Module Demo.

(** Splits a text at its first opening parenthesis. *)
Fixpoint split_paren (s : string) : string * option string :=
  match s with
  | EmptyString => (EmptyString, None)
  | String c rest =>
      if Ascii.eqb c "("%char then (EmptyString, Some rest)
      else let '(name, tail) := split_paren rest in (String c name, tail)
  end.

Definition demo_parseSchemaOrName (text : string) : outcome (OperatorName + FunctionSchema) :=
  match split_paren text with
  | (EmptyString, _) => Throw (MalformedSchema text)
  | (name, None) => Ok (inl (mkOperatorName "" name ""))
  | (name, Some signature) =>
      Ok (inr {| schema_name := mkOperatorName "" name "";
                 arguments := [signature];
                 returns := [];
                 aliasAnalysisKind := CONSERVATIVE |})
  end.

Definition demo_parseSchema (text : string) : outcome FunctionSchema :=
  match demo_parseSchemaOrName text with
  | Ok (inr s) => Ok s
  | Ok (inl _) => Throw (MalformedSchema text)
  | Throw e => Throw e
  end.

Definition demo_inferFunctionSchemaFlattenedReturns (ft : func_type) (name overload : string)
  : FunctionSchema :=
  {| schema_name := mkOperatorName "" name overload;
     arguments := arg_types ft;
     returns := ret_types ft;
     aliasAnalysisKind := CONSERVATIVE |}.

Definition model : SchemaModel :=
  {| parseSchema := demo_parseSchema;
     parseSchemaOrName := demo_parseSchemaOrName;
     inferFunctionSchemaFlattenedReturns := demo_inferFunctionSchemaFlattenedReturns |}.

Definition desktop : BuildConfig :=
  {| EXPOSE_C2_OPS := false; CAFFE2_IS_XPLAT_BUILD := false |}.

Definition mobile : BuildConfig :=
  {| EXPOSE_C2_OPS := false; CAFFE2_IS_XPLAT_BUILD := true |}.

Definition Tensor_Tensor : func_type :=
  {| arg_types := ["Tensor"]; ret_types := ["Tensor"] |}.

Definition Tensor_Tensor_Tensor : func_type :=
  {| arg_types := ["Tensor"; "Tensor"]; ret_types := ["Tensor"] |}.

(** [Tensor my_kernel_cpu(Tensor a)], as a function pointer. *)
Definition my_kernel_cpu : Callable :=
  {| ctype := {| is_function_type := true; is_functor := false;
                 is_stateless_lambda := false; is_base_of_OperatorKernel := false;
                 signature := Tensor_Tensor |};
     is_nullptr := false;
     ident := "my_kernel_cpu" |}.

(** [Tensor my_kernel_cuda(Tensor a, Tensor b)], as a function pointer. *)
Definition my_kernel_cuda : Callable :=
  {| ctype := {| is_function_type := true; is_functor := false;
                 is_stateless_lambda := false; is_base_of_OperatorKernel := false;
                 signature := Tensor_Tensor_Tensor |};
     is_nullptr := false;
     ident := "my_kernel_cuda" |}.

(** [[] (Tensor a) -> Tensor {...}]. *)
Definition stateless_lambda : Callable :=
  {| ctype := {| is_function_type := false; is_functor := true;
                 is_stateless_lambda := true; is_base_of_OperatorKernel := false;
                 signature := Tensor_Tensor |};
     is_nullptr := false;
     ident := "stateless_lambda" |}.


(** [class my_functor final : public c10::OperatorKernel]. *)
Definition my_functor : CallableType :=
  {| is_function_type := false; is_functor := true;
     is_stateless_lambda := false; is_base_of_OperatorKernel := true;
     signature := Tensor_Tensor |}.

(** A stack based kernel function. *)
Definition boxed_kernel : Callable :=
  {| ctype := {| is_function_type := true; is_functor := false;
                 is_stateless_lambda := false; is_base_of_OperatorKernel := false;
                 signature := BoxedKernelFunction |};
     is_nullptr := false;
     ident := "boxed_kernel" |}.

Definition my_op : OperatorName := mkOperatorName "" "my_op" "".

(** [options().schema("my_op").kernel(DispatchKey::CPU, &my_kernel_cpu)]. *)
Definition options_cpu : Options.t :=
  {| Options.schemaOrName_ := Some (inl my_op);
     Options.kernels :=
       [ {| Options.dispatch_key := Some DispatchKey.CPU;
            Options.func := KernelFunction.makeFromUnboxedRuntimeFunction false my_kernel_cpu;
            Options.inferred_function_schema :=
              Some (demo_inferFunctionSchemaFlattenedReturns Tensor_Tensor "" "") |} ];
     Options.aliasAnalysisKind_ := None |}.

(** [options().schema("my_op").kernel(DispatchKey::CUDA, [] (Tensor a) -> Tensor {...})]. *)
Definition options_cuda : Options.t :=
  {| Options.schemaOrName_ := Some (inl my_op);
     Options.kernels :=
       [ {| Options.dispatch_key := Some DispatchKey.CUDA;
            Options.func := KernelFunction.makeFromUnboxedLambda false stateless_lambda;
            Options.inferred_function_schema :=
              Some (demo_inferFunctionSchemaFlattenedReturns Tensor_Tensor "" "") |} ];
     Options.aliasAnalysisKind_ := None |}.

(** [options().schema("my_op").catchAllKernel([] (Tensor a) -> Tensor {...})]. *)
Definition options_catchAll : Options.t :=
  {| Options.schemaOrName_ := Some (inl my_op);
     Options.kernels :=
       [ {| Options.dispatch_key := None;
            Options.func := KernelFunction.makeFromUnboxedLambda false stateless_lambda;
            Options.inferred_function_schema :=
              Some (demo_inferFunctionSchemaFlattenedReturns Tensor_Tensor "" "") |} ];
     Options.aliasAnalysisKind_ := None |}.

(** Two kernels under the key [CPU] in one batch, whose inferred schemas
    disagree: [Tensor(Tensor)] and [Tensor(Tensor, Tensor)]. *)
Definition options_cpu_twice : Options.t :=
  {| Options.schemaOrName_ := Some (inl my_op);
     Options.kernels :=
       [ {| Options.dispatch_key := Some DispatchKey.CPU;
            Options.func := KernelFunction.makeFromUnboxedRuntimeFunction false my_kernel_cpu;
            Options.inferred_function_schema :=
              Some (demo_inferFunctionSchemaFlattenedReturns Tensor_Tensor "" "") |};
         {| Options.dispatch_key := Some DispatchKey.CPU;
            Options.func := KernelFunction.makeFromUnboxedRuntimeFunction false my_kernel_cuda;
            Options.inferred_function_schema :=
              Some (demo_inferFunctionSchemaFlattenedReturns Tensor_Tensor_Tensor "" "") |} ];
     Options.aliasAnalysisKind_ := None |}.

(** The same batch with kernels that agree on the signature. *)
Definition options_cpu_twice_agreeing : Options.t :=
  {| Options.schemaOrName_ := Some (inl my_op);
     Options.kernels :=
       [ {| Options.dispatch_key := Some DispatchKey.CPU;
            Options.func := KernelFunction.makeFromUnboxedRuntimeFunction false my_kernel_cpu;
            Options.inferred_function_schema :=
              Some (demo_inferFunctionSchemaFlattenedReturns Tensor_Tensor "" "") |};
         {| Options.dispatch_key := Some DispatchKey.CPU;
            Options.func := KernelFunction.makeFromUnboxedLambda false stateless_lambda;
            Options.inferred_function_schema :=
              Some (demo_inferFunctionSchemaFlattenedReturns Tensor_Tensor "" "") |} ];
     Options.aliasAnalysisKind_ := None |}.

(** Session A registers [options_cpu] on the empty registry, then session
    B registers [options_cuda]. *)
Definition after_session_A : RegisterOperators.state :=
  snd (RegisterOperators.op options_cpu (Dispatcher.empty, RegisterOperators.RegisterOperators_)).

Definition after_session_B : RegisterOperators.state :=
  snd (RegisterOperators.op options_cuda (fst after_session_A, RegisterOperators.RegisterOperators_)).

Definition session_A : RegisterOperators.t := snd after_session_A.

Definition session_B : RegisterOperators.t := snd after_session_B.

Definition registry_AB : Dispatcher.t := fst after_session_B.

(** [MAKE_TORCH_LIBRARY(myns)] next to an empty dispatcher. *)
Definition library_state : Library.state :=
  (Dispatcher.empty,
   {| Library.kind_ := Library.DEF;
      Library.ns_ := Some "myns";
      Library.dispatch_key_ := None;
      Library.file_ := "my_ops.cpp";
      Library.line_ := 1;
      Library.registrars_ := [] |}).

End Demo.

(** ** The kernel entry points of the header, as data

    One constructor per way the header offers to attach a kernel to an
    [Options] value, with the arguments of that call. *)

Inductive KernelPath : Type :=
| kernel_boxed_path (kernel_func : Callable) (dispatch_key : DispatchKey.t)
| catchAllKernel_boxed_path (kernel_func : Callable)
| kernel_functor_path (KernelFunctor : CallableType) (is_constructible : bool)
    (dispatch_key : DispatchKey.t) (constructorParameters : list string)
| catchAllKernel_functor_path (KernelFunctor : CallableType) (is_constructible : bool)
    (constructorParameters : list string)
| kernel_function_path (kernel_func : Callable) (dispatch_key : DispatchKey.t)
| catchAllKernel_function_path (kernel_func : Callable)
| kernel_runtime_function_path (dispatch_key : DispatchKey.t) (kernel_func : Callable)
| catchAllKernel_runtime_function_path (kernel_func : Callable)
| impl_unboxedOnlyKernel_path (kernel_func : Callable) (dispatch_key : DispatchKey.t)
| impl_unboxedOnlyCatchAllKernel_path (kernel_func : Callable)
| kernel_lambda_path (dispatch_key : DispatchKey.t) (functor : Callable)
| catchAllKernel_lambda_path (lambda : Callable).

(** The call a path stands for. *)
Definition call_path `{SchemaModel} (p : KernelPath) : Compile (M Options.t unit) :=
  match p with
  | kernel_boxed_path f k => Options.kernel_boxed f k
  | catchAllKernel_boxed_path f => Options.catchAllKernel_boxed f
  | kernel_functor_path T c k ps => Options.kernel_functor T c k ps
  | catchAllKernel_functor_path T c ps => Options.catchAllKernel_functor T c ps
  | kernel_function_path f k => Options.kernel_function f k
  | catchAllKernel_function_path f => Options.catchAllKernel_function f
  | kernel_runtime_function_path k f => Options.kernel_runtime_function k f
  | catchAllKernel_runtime_function_path f => Options.catchAllKernel_runtime_function f
  | impl_unboxedOnlyKernel_path f k => Options.impl_unboxedOnlyKernel f k
  | impl_unboxedOnlyCatchAllKernel_path f => Options.impl_unboxedOnlyCatchAllKernel f
  | kernel_lambda_path k f => Options.kernel_lambda k f
  | catchAllKernel_lambda_path f => Options.catchAllKernel_lambda f
  end.

(** The static type of the callable a path is given. *)
Definition path_type (p : KernelPath) : CallableType :=
  match p with
  | kernel_boxed_path f _ | catchAllKernel_boxed_path f
  | kernel_function_path f _ | catchAllKernel_function_path f
  | kernel_runtime_function_path _ f | catchAllKernel_runtime_function_path f
  | impl_unboxedOnlyKernel_path f _ | impl_unboxedOnlyCatchAllKernel_path f
  | kernel_lambda_path _ f | catchAllKernel_lambda_path f => ctype f
  | kernel_functor_path T _ _ _ | catchAllKernel_functor_path T _ _ => T
  end.

(** The typed paths: functor, function pointer (compile-time and run-time)
    and lambda; the boxed and the unboxed-only paths are the other ones. *)
Definition typed_path (p : KernelPath) : bool :=
  match p with
  | kernel_boxed_path _ _ | catchAllKernel_boxed_path _
  | impl_unboxedOnlyKernel_path _ _ | impl_unboxedOnlyCatchAllKernel_path _ => false
  | _ => true
  end.


(** A batch of kernels is in conflict when two of its kernels have the same
    dispatch key (catch-all counted as a key), or when it has both a catch-all
    kernel and a keyed one. *)
Definition batch_conflict (ks : list Options.KernelRegistrationConfig) : Prop :=
  (∃ (i j : nat) (ci cj : Options.KernelRegistrationConfig),
      i ≠ j ∧ ks !! i = Some ci ∧ ks !! j = Some cj
      ∧ Options.dispatch_key ci = Options.dispatch_key cj)
  ∨ (∃ (c1 c2 : Options.KernelRegistrationConfig) (k : DispatchKey.t),
        c1 ∈ ks ∧ c2 ∈ ks
        ∧ Options.dispatch_key c1 = None ∧ Options.dispatch_key c2 = Some k).

(** The operator a bundle names, when it names one. *)
Definition bundle_name (options : Options.t) : option OperatorName :=
  match Options.schemaOrName_ options with
  | None => None
  | Some (inl name) => Some name
  | Some (inr schema) => Some (schema_name schema)
  end.


(** What a session's handles remove from a slot: the entry is dropped when
    the handle returned for it is among [hs], and kept otherwise. *)
Definition after_revoking {A : Type} (hs : list Dispatcher.RegistrationHandleRAII)
    (s : Dispatcher.Slot)
    (held : option (nat * A)) : option (nat * A) :=
  match held with
  | Some (tok, a) => if bool_decide (Dispatcher.mkHandle s tok ∈ hs) then None else Some (tok, a)
  | None => None
  end.

(** ** More vocabulary for statements about the entry points *)

(** The compile-time verdict alone. *)
Definition verdict {A : Type} (c : Compile A) : Compile unit :=
  Compile_map (fun _ => tt) c.

(** Feeding an accepted value to a second compile-time step. *)
Definition Compile_bind {A B : Type} (c : Compile A) (k : A -> Compile B) : Compile B :=
  match c with
  | Accepted a => k a
  | NotViable => NotViable
  | StaticAssert msg => StaticAssert msg
  end.

(** Builder calls made one after the other on the same builder. *)
Fixpoint chain_calls (ms : list (M Options.t unit)) : M Options.t unit :=
  match ms with
  | [] => ret tt
  | m :: rest => m;; chain_calls rest
  end.

(** The dispatch key a path is called with: the given key for the
    [kernel] and [impl_unboxedOnlyKernel] forms, none for the catch-all
    forms. *)
Definition path_key (p : KernelPath) : option DispatchKey.t :=
  match p with
  | kernel_boxed_path _ k | kernel_functor_path _ _ k _ | kernel_function_path _ k
  | kernel_runtime_function_path k _ | impl_unboxedOnlyKernel_path _ k
  | kernel_lambda_path k _ => Some k
  | catchAllKernel_boxed_path _ | catchAllKernel_functor_path _ _ _
  | catchAllKernel_function_path _ | catchAllKernel_runtime_function_path _
  | impl_unboxedOnlyCatchAllKernel_path _ | catchAllKernel_lambda_path _ => None
  end.

(** The catch-all form of a path, with the same callable. *)
Definition catchAll_of (p : KernelPath) : KernelPath :=
  match p with
  | kernel_boxed_path f _ | catchAllKernel_boxed_path f => catchAllKernel_boxed_path f
  | kernel_functor_path T c _ ps | catchAllKernel_functor_path T c ps =>
      catchAllKernel_functor_path T c ps
  | kernel_function_path f _ | catchAllKernel_function_path f => catchAllKernel_function_path f
  | kernel_runtime_function_path _ f | catchAllKernel_runtime_function_path f =>
      catchAllKernel_runtime_function_path f
  | impl_unboxedOnlyKernel_path f _ | impl_unboxedOnlyCatchAllKernel_path f =>
      impl_unboxedOnlyCatchAllKernel_path f
  | kernel_lambda_path _ f | catchAllKernel_lambda_path f => catchAllKernel_lambda_path f
  end.

(** The callable value a path is given; the functor paths are given a type
    and constructor arguments instead. *)
Definition path_callable (p : KernelPath) : option Callable :=
  match p with
  | kernel_boxed_path f _ | catchAllKernel_boxed_path f
  | kernel_function_path f _ | catchAllKernel_function_path f
  | kernel_runtime_function_path _ f | catchAllKernel_runtime_function_path f
  | impl_unboxedOnlyKernel_path f _ | impl_unboxedOnlyCatchAllKernel_path f
  | kernel_lambda_path _ f | catchAllKernel_lambda_path f => Some f
  | kernel_functor_path _ _ _ _ | catchAllKernel_functor_path _ _ _ => None
  end.

(** The internal paths for stack based kernels. *)
Definition boxed_path (p : KernelPath) : bool :=
  match p with
  | kernel_boxed_path _ _ | catchAllKernel_boxed_path _ => true
  | _ => false
  end.

(** The paths that take a functor class. *)
Definition functor_path (p : KernelPath) : bool :=
  match p with
  | kernel_functor_path _ _ _ _ | catchAllKernel_functor_path _ _ _ => true
  | _ => false
  end.

(** The public paths that take a pointer to a typed function. *)
Definition function_pointer_path (p : KernelPath) : bool :=
  match p with
  | kernel_function_path _ _ | catchAllKernel_function_path _
  | kernel_runtime_function_path _ _ | catchAllKernel_runtime_function_path _
  | impl_unboxedOnlyKernel_path _ _ | impl_unboxedOnlyCatchAllKernel_path _ => true
  | _ => false
  end.

(** Whether a call compiles. *)
Definition is_Accepted {A : Type} (c : Compile A) : bool :=
  match c with
  | Accepted _ => true
  | _ => false
  end.

(** * Properties *)

(** ** Device types and dispatch keys *)

(** C8.  [deviceTypeToDispatchKey] gives a result for every device type:
    CPU, CUDA, XLA, HIP and MSNPU map to the dispatch keys of the same name,
    every other device type is one of the unnamed enumerators and makes the
    mapping throw an error of the unsupported-device class, so that each
    device type either has a key or fails with that error. *)
Theorem deviceTypeToDispatchKey_mapping :
  deviceTypeToDispatchKey DeviceType.CPU = Ok DispatchKey.CPU
  ∧ deviceTypeToDispatchKey DeviceType.CUDA = Ok DispatchKey.CUDA
  ∧ deviceTypeToDispatchKey DeviceType.XLA = Ok DispatchKey.XLA
  ∧ deviceTypeToDispatchKey DeviceType.HIP = Ok DispatchKey.HIP
  ∧ deviceTypeToDispatchKey DeviceType.MSNPU = Ok DispatchKey.MSNPU
  ∧ (∀ n : nat,
       deviceTypeToDispatchKey (DeviceType.Other n)
       = Throw (DeviceTypeNotOverloadable (DeviceType.Other n)))
  ∧ (∀ t : DeviceType.t,
       t ∈ [DeviceType.CPU; DeviceType.CUDA; DeviceType.XLA; DeviceType.HIP; DeviceType.MSNPU]
       ∨ ∃ n : nat, t = DeviceType.Other n)
  ∧ (∀ t : DeviceType.t,
       (∃ k : DispatchKey.t, deviceTypeToDispatchKey t = Ok k)
       ∨ (∃ e : Error, deviceTypeToDispatchKey t = Throw e
                       ∧ classify e = UnsupportedDeviceError)).
Proof.
  repeat split; try reflexivity.
  - intros t. destruct t; [left | left | left | left | left | right; eauto];
      repeat first [ apply list_elem_of_here | apply list_elem_of_further ].
  - intros t. destruct t; simpl; eauto.
Qed.

(** ** [c10::dispatch] and the catch-all sentinel *)

Lemma construct_Raw_keyless `{SchemaModel} (c : Callable) (f : CppFunction.t) :
  CppFunction.construct (CppFunction.Raw c) = Accepted f →
  CppFunction.dispatch_key_ f = None.
Proof.
  unfold CppFunction.construct, CppFunction.of_function_pointer, CppFunction.of_lambda.
  destruct (is_function_type (ctype c)), (is_functor (ctype c)); intros Hf;
    inversion Hf; reflexivity.
Qed.

Lemma set_dispatch_key_None_keyless (f : CppFunction.t) :
  CppFunction.dispatch_key_ f = None →
  CppFunction.set_dispatch_key_ None f = f.
Proof. destruct f as [k fn s dbg]; simpl; intros ->; reflexivity. Qed.

Lemma dispatch_CatchAll_Raw `{SchemaModel} (c : Callable) :
  dispatch DispatchKey.CatchAll (CppFunction.Raw c) = CppFunction.construct (CppFunction.Raw c).
Proof.
  unfold dispatch. simpl bool_decide.
  destruct (CppFunction.construct (CppFunction.Raw c)) as [f | | msg] eqn:Hc; simpl; try reflexivity.
  f_equal. apply set_dispatch_key_None_keyless. eapply construct_Raw_keyless, Hc.
Qed.

(** C10.  [c10::dispatch(k, f)] builds the [CppFunction] of [f] and then
    sets its dispatch key to none when [k] is [DispatchKey::CatchAll] and to
    [k] otherwise.  For a raw callable the result under [CatchAll] is the very
    [CppFunction] that the keyless construction gives, so
    [impl(name, DispatchKey::CatchAll, f)] hands the private [_impl] the same
    arguments as [impl(name, f)], whatever [_impl] does with them. *)
Theorem dispatch_normalizes_CatchAll `{SchemaModel} :
  (∀ (k : DispatchKey.t) (raw_f : CppFunction.Func),
     Compile_map CppFunction.dispatch_key_ (dispatch k raw_f)
     = Compile_map (fun _ => if bool_decide (k = DispatchKey.CatchAll) then None else Some k)
         (CppFunction.construct raw_f))
  ∧ (∀ (k : DispatchKey.t) (raw_f : CppFunction.Func),
       Compile_map (fun f => (CppFunction.func_ f, CppFunction.schema_ f, CppFunction.debug_ f))
         (dispatch k raw_f)
       = Compile_map (fun f => (CppFunction.func_ f, CppFunction.schema_ f, CppFunction.debug_ f))
           (CppFunction.construct raw_f))
  ∧ (∀ c : Callable,
       dispatch DispatchKey.CatchAll (CppFunction.Raw c)
       = CppFunction.construct (CppFunction.Raw c))
  ∧ (∀ (_impl : string -> CppFunction.t -> M Library.state unit) (name : string) (c : Callable),
       Library.impl_DispatchKey _impl name DispatchKey.CatchAll (CppFunction.Raw c)
       = Library.impl _impl name (CppFunction.Raw c)).
Proof.
  split; [| split; [| split]].
  - intros k raw_f. unfold dispatch.
    destruct (CppFunction.construct raw_f) as [f | | msg]; simpl; try reflexivity.
    destruct (bool_decide (k = DispatchKey.CatchAll)); reflexivity.
  - intros k raw_f. unfold dispatch.
    destruct (CppFunction.construct raw_f) as [f | | msg]; simpl; try reflexivity.
    destruct (bool_decide (k = DispatchKey.CatchAll)); reflexivity.
  - apply dispatch_CatchAll_Raw.
  - intros _impl name c. unfold Library.impl_DispatchKey, Library.impl.
    rewrite dispatch_CatchAll_Raw.
    destruct (CppFunction.construct (CppFunction.Raw c)) as [f | | msg]; reflexivity.
Qed.

(** ** The [Options] builder *)

(** Unfolds the monad of throwing state transformers. *)
Ltac run_M :=
  unfold mbind, M_bind, mret, M_ret, outcome_mbind, outcome_ret, outcome_bind,
    bind, ret, throw, get, put, lift, TORCH_CHECK, TORCH_INTERNAL_ASSERT in *;
  simpl in *.

Lemma is_Some_bool_None {A : Type} (x : option A) :
  x = None → bool_decide (is_Some x) = false.
Proof. intros ->. apply bool_decide_eq_false. intros [a Ha]. discriminate. Qed.

Lemma is_Some_bool_Some {A : Type} (x : option A) :
  is_Some x → bool_decide (is_Some x) = true.
Proof. intros Hx. by apply bool_decide_eq_true. Qed.

Lemma parser_in_build_guard (build : BuildConfig) :
  negb (EXPOSE_C2_OPS build) && CAFFE2_IS_XPLAT_BUILD build
  = negb (schema_parser_in_build build).
Proof.
  unfold schema_parser_in_build.
  destruct (EXPOSE_C2_OPS build), (CAFFE2_IS_XPLAT_BUILD build); reflexivity.
Qed.

Section OptionsSchema.
Context `{SchemaModel} (build : BuildConfig).

Lemma schema_FunctionSchema_fresh (o : Options.t) (s : FunctionSchema) :
  Options.schemaOrName_ o = None →
  Options.schema_FunctionSchema s o = (Ok tt, Options.set_schemaOrName_ (inr s) o).
Proof.
  intros Ho. unfold Options.schema_FunctionSchema. run_M.
  rewrite (is_Some_bool_None _ Ho). reflexivity.
Qed.

Lemma schema_FunctionSchema_again (o : Options.t) (s : FunctionSchema) :
  is_Some (Options.schemaOrName_ o) →
  Options.schema_FunctionSchema s o = (Throw SchemaSpecifiedTwice, o).
Proof.
  intros Ho. unfold Options.schema_FunctionSchema. run_M.
  rewrite (is_Some_bool_Some _ Ho). reflexivity.
Qed.

Lemma schema_string_fresh (o : Options.t) (text : string) (v : OperatorName + FunctionSchema) :
  Options.schemaOrName_ o = None →
  schema_parser_in_build build = true →
  parseSchemaOrName text = Ok v →
  Options.schema_string build text o = (Ok tt, Options.set_schemaOrName_ v o).
Proof.
  intros Ho Hb Hp. unfold Options.schema_string. run_M.
  rewrite (is_Some_bool_None _ Ho), parser_in_build_guard, Hb. simpl.
  rewrite Hp. reflexivity.
Qed.

Lemma schema_string_malformed (o : Options.t) (text : string) (e : Error) :
  Options.schemaOrName_ o = None →
  schema_parser_in_build build = true →
  parseSchemaOrName text = Throw e →
  Options.schema_string build text o = (Throw e, o).
Proof.
  intros Ho Hb Hp. unfold Options.schema_string. run_M.
  rewrite (is_Some_bool_None _ Ho), parser_in_build_guard, Hb. simpl.
  rewrite Hp. reflexivity.
Qed.

Lemma schema_string_no_parser (o : Options.t) (text : string) :
  Options.schemaOrName_ o = None →
  schema_parser_in_build build = false →
  Options.schema_string build text o = (Throw (NoSchemaParserInBuild text), o).
Proof.
  intros Ho Hb. unfold Options.schema_string. run_M.
  rewrite (is_Some_bool_None _ Ho), parser_in_build_guard, Hb. reflexivity.
Qed.

Lemma schema_string_again (o : Options.t) (text : string) :
  is_Some (Options.schemaOrName_ o) →
  Options.schema_string build text o = (Throw SchemaSpecifiedTwice, o).
Proof.
  intros Ho. unfold Options.schema_string. run_M.
  rewrite (is_Some_bool_Some _ Ho). reflexivity.
Qed.

(** A successful [schema(string)] call found the builder without a schema
    and stored what the parser returned. *)
Lemma schema_string_Ok_inv (o o' : Options.t) (text : string) :
  Options.schema_string build text o = (Ok tt, o') →
  Options.schemaOrName_ o = None
  ∧ ∃ v, parseSchemaOrName text = Ok v ∧ o' = Options.set_schemaOrName_ v o.
Proof.
  unfold Options.schema_string. run_M.
  destruct (Options.schemaOrName_ o) as [x |] eqn:Ho.
  - rewrite (is_Some_bool_Some (Some x)) by eauto. simpl. discriminate.
  - rewrite (is_Some_bool_None None) by reflexivity. simpl.
    destruct (negb (EXPOSE_C2_OPS build) && CAFFE2_IS_XPLAT_BUILD build); [discriminate |].
    destruct (parseSchemaOrName text) as [v | e]; [| discriminate].
    intros Heq. inversion Heq. split; [reflexivity | eauto].
Qed.
End OptionsSchema.

(** C3 (as stated, refuted).  The first [schema(string)] call on a fresh
    builder does not always succeed: in a build without the schema parser it
    throws [std::logic_error], and with the parser it throws the parse error
    of a malformed text; both leave the builder fresh. *)
Lemma schema_first_call_may_throw :
  @Options.schema_string Demo.model Demo.mobile "my_op" Options.Options_
  = (Throw (NoSchemaParserInBuild "my_op"), Options.Options_)
  ∧ @Options.schema_string Demo.model Demo.desktop "(Tensor a) -> Tensor" Options.Options_
    = (Throw (MalformedSchema "(Tensor a) -> Tensor"), Options.Options_).
Proof. split; reflexivity. Qed.

(** C3 (amended).  [schema(...)] sets the schema-or-name at most once.  On a
    builder without a schema the [FunctionSchema] overload always stores its
    argument, and the string overload stores what the parser returns when
    the build has the parser and the text parses; without the parser, or on a
    malformed text, it throws that error and the builder stays as it was.  On
    a builder that has a schema, and so after any successful call, both
    overloads throw the schema-specified-twice configuration error and leave
    the builder, hence its stored schema, unchanged. *)
Theorem schema_set_at_most_once `{SchemaModel} (build : BuildConfig)
    (o : Options.t) (text : string) (s : FunctionSchema) :
  (Options.schemaOrName_ o = None →
     Options.schema_FunctionSchema s o = (Ok tt, Options.set_schemaOrName_ (inr s) o)
     ∧ (∀ v, schema_parser_in_build build = true → parseSchemaOrName text = Ok v →
          Options.schema_string build text o = (Ok tt, Options.set_schemaOrName_ v o))
     ∧ (∀ e, schema_parser_in_build build = true → parseSchemaOrName text = Throw e →
          Options.schema_string build text o = (Throw e, o))
     ∧ (schema_parser_in_build build = false →
          Options.schema_string build text o = (Throw (NoSchemaParserInBuild text), o)))
  ∧ (is_Some (Options.schemaOrName_ o) →
       Options.schema_FunctionSchema s o = (Throw SchemaSpecifiedTwice, o)
       ∧ Options.schema_string build text o = (Throw SchemaSpecifiedTwice, o))
  ∧ (∀ (first : M Options.t unit) (o' : Options.t),
       (first = Options.schema_FunctionSchema s ∨ first = Options.schema_string build text) →
       first o = (Ok tt, o') →
       ∀ (text' : string) (s' : FunctionSchema),
         Options.schema_FunctionSchema s' o' = (Throw SchemaSpecifiedTwice, o')
         ∧ Options.schema_string build text' o' = (Throw SchemaSpecifiedTwice, o'))
  ∧ classify SchemaSpecifiedTwice = ConfigurationError.
Proof.
  split; [| split; [| split]].
  - intros Ho. repeat split.
    + by apply schema_FunctionSchema_fresh.
    + intros v Hb Hp. by apply schema_string_fresh.
    + intros e Hb Hp. by apply schema_string_malformed.
    + intros Hb. by apply schema_string_no_parser.
  - intros Ho. split.
    + by apply schema_FunctionSchema_again.
    + by apply schema_string_again.
  - intros first o' Hfirst Hrun text' s'.
    assert (is_Some (Options.schemaOrName_ o')) as Hset.
    { destruct Hfirst as [-> | ->].
      - destruct (Options.schemaOrName_ o) as [x |] eqn:Ho.
        + rewrite schema_FunctionSchema_again in Hrun by (rewrite Ho; eauto). discriminate.
        + rewrite schema_FunctionSchema_fresh in Hrun by done. inversion Hrun. simpl. eauto.
      - apply schema_string_Ok_inv in Hrun as (_ & v & _ & ->). simpl. eauto. }
    split.
    + by apply schema_FunctionSchema_again.
    + by apply schema_string_again.
  - reflexivity.
Qed.

Lemma schema_set_at_most_once_witness :
  let named := Options.set_schemaOrName_ (inl (mkOperatorName "" "my_op" "")) Options.Options_ in
  @Options.schema_string Demo.model Demo.desktop "my_op" Options.Options_ = (Ok tt, named)
  ∧ @Options.schema_string Demo.model Demo.desktop "my_other_op" named
    = (Throw SchemaSpecifiedTwice, named).
Proof.
  pose proof (@schema_set_at_most_once Demo.model Demo.desktop Options.Options_ "my_op"
                (Demo.demo_inferFunctionSchemaFlattenedReturns Demo.Tensor_Tensor "" ""))
    as (Hfresh & _ & Hsecond & _).
  destruct (Hfresh eq_refl) as (_ & Hstring & _).
  split.
  - apply Hstring; reflexivity.
  - eapply (Hsecond _ _ (or_intror eq_refl)).
    + apply Hstring; reflexivity.
    + exact (Demo.demo_inferFunctionSchemaFlattenedReturns Demo.Tensor_Tensor "" "").
Defined.

(** ** Alias analysis of a parsed schema *)

(** C4 (as stated, refuted).  [Options::schema(string)] stores the schema
    the parser returned without touching its alias analysis kind: with a
    parser that leaves the kind at the conservative default, the stored
    schema is not [FROM_SCHEMA], and the builder's own kind stays unset. *)
Lemma Options_schema_keeps_parsed_alias_kind :
  ∃ (s : FunctionSchema) (o' : Options.t),
    @parseSchemaOrName Demo.model "my_op(Tensor a) -> Tensor" = Ok (inr s)
    ∧ @Options.schema_string Demo.model Demo.desktop "my_op(Tensor a) -> Tensor" Options.Options_
      = (Ok tt, o')
    ∧ Options.schemaOrName_ o' = Some (inr s)
    ∧ Options.aliasAnalysisKind_ o' = None
    ∧ aliasAnalysisKind s = CONSERVATIVE
    ∧ aliasAnalysisKind s ≠ FROM_SCHEMA.
Proof. do 2 eexists. repeat split; try reflexivity. simpl. discriminate. Qed.

(** C4 (amended).  For a text that parses to a full schema,
    [c10::schema(const char* )] and [detail::constructSchemaOrName(const char* )]
    return the parsed schema with its alias analysis kind set to
    [FROM_SCHEMA] and nothing else changed; [Options::schema(string)] stores
    the parsed schema exactly as the parser returned it, with the kind the
    parser gave it, and leaves the builder's own alias analysis kind
    alone. *)
Theorem schema_text_alias_analysis `{SchemaModel} (build : BuildConfig)
    (text : string) (s : FunctionSchema) :
  (parseSchema text = Ok s →
     schema text = Ok (setAliasAnalysis FROM_SCHEMA s))
  ∧ (parseSchemaOrName text = Ok (inr s) →
       constructSchemaOrName text = Ok (inr (setAliasAnalysis FROM_SCHEMA s))
       ∧ ∀ o o' : Options.t,
           Options.schema_string build text o = (Ok tt, o') →
           Options.schemaOrName_ o' = Some (inr s)
           ∧ Options.aliasAnalysisKind_ o' = Options.aliasAnalysisKind_ o)
  ∧ aliasAnalysisKind (setAliasAnalysis FROM_SCHEMA s) = FROM_SCHEMA
  ∧ schema_name (setAliasAnalysis FROM_SCHEMA s) = schema_name s
  ∧ arguments (setAliasAnalysis FROM_SCHEMA s) = arguments s
  ∧ returns (setAliasAnalysis FROM_SCHEMA s) = returns s.
Proof.
  split; [| split; [| repeat split]].
  - intros Hp. unfold schema, schema_with_kind. run_M. rewrite Hp. reflexivity.
  - intros Hp. split.
    + unfold constructSchemaOrName. run_M. rewrite Hp. reflexivity.
    + intros o o' Hrun.
      apply schema_string_Ok_inv in Hrun as (_ & v & Hv & ->).
      rewrite Hp in Hv. inversion Hv. subst v. split; reflexivity.
Qed.

Lemma schema_text_alias_analysis_witness :
  let text := "my_op(Tensor a) -> Tensor" in
  let parsed :=
    {| schema_name := mkOperatorName "" "my_op" "";
       arguments := ["Tensor a) -> Tensor"];
       returns := [];
       aliasAnalysisKind := CONSERVATIVE |} in
  @schema Demo.model text = Ok (setAliasAnalysis FROM_SCHEMA parsed)
  ∧ @constructSchemaOrName Demo.model text = Ok (inr (setAliasAnalysis FROM_SCHEMA parsed)).
Proof.
  pose proof (@schema_text_alias_analysis Demo.model Demo.desktop "my_op(Tensor a) -> Tensor"
                {| schema_name := mkOperatorName "" "my_op" "";
                   arguments := ["Tensor a) -> Tensor"];
                   returns := [];
                   aliasAnalysisKind := CONSERVATIVE |})
    as (Hschema & Hconstruct & _).
  split.
  - apply Hschema. reflexivity.
  - apply Hconstruct. reflexivity.
Defined.

(** ** Kernel entry points *)

Lemma kernel_appends (k : option DispatchKey.t) (f : KernelFunction.t)
    (s : option FunctionSchema) (o : Options.t) :
  Options.kernel k f s o
  = (Ok tt,
     Options.push_back
       {| Options.dispatch_key := k; Options.func := f;
          Options.inferred_function_schema := s |} o).
Proof. reflexivity. Qed.

(** What an accepted call does to a builder, when it does not throw. *)
Lemma call_path_appends `{SchemaModel} (p : KernelPath) (m : M Options.t unit)
    (o o' : Options.t) :
  call_path p = Accepted m →
  m o = (Ok tt, o') →
  ∃ config : Options.KernelRegistrationConfig,
    o' = Options.push_back config o
    ∧ Options.inferred_function_schema config
      = (if typed_path p
         then Some (inferFunctionSchemaFlattenedReturns (signature (path_type p)) "" "")
         else None).
Proof.
  destruct p; simpl;
    unfold Options.kernel_boxed, Options.catchAllKernel_boxed,
      Options.kernel_functor, Options.catchAllKernel_functor,
      Options.kernel_function, Options.catchAllKernel_function,
      Options.kernel_runtime_function, Options.catchAllKernel_runtime_function,
      Options.impl_unboxedOnlyKernel, Options.impl_unboxedOnlyCatchAllKernel,
      Options.kernel_lambda, Options.catchAllKernel_lambda;
    intros Hcall Hrun;
    repeat match type of Hcall with
           | (if ?b then _ else _) = _ => destruct b; try discriminate
           end;
    inversion Hcall; subst m; clear Hcall;
    run_M;
    repeat match type of Hrun with
           | context [if ?b then _ else _] => destruct b; simpl in Hrun; try discriminate
           end;
    inversion Hrun; eexists; split; reflexivity.
Qed.

Section LegacyOp.
Context `{SchemaModel} (build : BuildConfig).

Lemma op_function_pointer_options_Ok (schemaOrName : string) (f : Callable)
    (options built : Options.t) :
  RegisterOperators.op_function_pointer_options build schemaOrName f options = (Ok tt, built) →
  ∃ v : OperatorName + FunctionSchema,
    parseSchemaOrName schemaOrName = Ok v
    ∧ built
      = Options.push_back
          {| Options.dispatch_key := None;
             Options.func := KernelFunction.makeFromUnboxedRuntimeFunction true f;
             Options.inferred_function_schema :=
               Some (inferFunctionSchemaFlattenedReturns (signature (ctype f)) "" "") |}
          (Options.set_schemaOrName_ v options).
Proof.
  unfold RegisterOperators.op_function_pointer_options.
  unfold mbind at 1, M_bind, bind.
  destruct (Options.schema_string build schemaOrName options) as [[[] | e] o1] eqn:Hs;
    [| discriminate].
  apply schema_string_Ok_inv in Hs as (_ & v & Hv & ->).
  rewrite kernel_appends. intros Heq. inversion Heq. eauto.
Qed.

Lemma op_lambda_options_Ok (schemaOrName : string) (f : Callable)
    (options built : Options.t) :
  RegisterOperators.op_lambda_options build schemaOrName f options = (Ok tt, built) →
  ∃ v : OperatorName + FunctionSchema,
    parseSchemaOrName schemaOrName = Ok v
    ∧ built
      = Options.push_back
          {| Options.dispatch_key := None;
             Options.func := KernelFunction.makeFromUnboxedLambda true f;
             Options.inferred_function_schema :=
               Some (inferFunctionSchemaFlattenedReturns (signature (ctype f)) "" "") |}
          (Options.set_schemaOrName_ v options).
Proof.
  unfold RegisterOperators.op_lambda_options.
  unfold mbind at 1, M_bind, bind.
  destruct (Options.schema_string build schemaOrName options) as [[[] | e] o1] eqn:Hs;
    [| discriminate].
  apply schema_string_Ok_inv in Hs as (_ & v & Hv & ->).
  rewrite kernel_appends. intros Heq. inversion Heq. eauto.
Qed.
End LegacyOp.

(** C6.  A kernel attached through the functor, the compile-time function
    pointer, the run-time function pointer or the lambda entry points carries
    the schema inferred from the static signature of its callable; a kernel
    attached through the boxed or the unboxed-only entry points carries none.
    The same holds for the [CppFunction] constructors (function pointer and
    lambda: inferred; unboxed-only, fallthrough and boxed: none) and for the
    kernel of the legacy [op] shorthands (inferred). *)
Theorem inferred_schema_by_path `{SchemaModel} :
  (∀ (p : KernelPath) (m : M Options.t unit) (o o' : Options.t),
     call_path p = Accepted m →
     m o = (Ok tt, o') →
     ∃ config : Options.KernelRegistrationConfig,
       Options.kernels o' = (Options.kernels o ++ [config])%list
       ∧ Options.inferred_function_schema config
         = (if typed_path p
            then Some (inferFunctionSchemaFlattenedReturns (signature (path_type p)) "" "")
            else None))
  ∧ (∀ (f : Callable) (cf : CppFunction.t),
       (CppFunction.of_function_pointer f = Accepted cf ∨ CppFunction.of_lambda f = Accepted cf) →
       CppFunction.schema_ cf
       = Some (inferFunctionSchemaFlattenedReturns (signature (ctype f)) "" ""))
  ∧ (∀ f : Callable,
       CppFunction.schema_ (CppFunction.makeUnboxedOnly f) = None
       ∧ CppFunction.schema_ (CppFunction.makeFromBoxedFunction f) = None)
  ∧ CppFunction.schema_ CppFunction.makeFallthrough = None
  ∧ (∀ (build : BuildConfig) (schemaOrName : string) (f : Callable) (options built : Options.t),
       (RegisterOperators.op_function_pointer_options build schemaOrName f options = (Ok tt, built)
        ∨ RegisterOperators.op_lambda_options build schemaOrName f options = (Ok tt, built)) →
       ∃ config : Options.KernelRegistrationConfig,
         Options.kernels built = (Options.kernels options ++ [config])%list
         ∧ Options.inferred_function_schema config
           = Some (inferFunctionSchemaFlattenedReturns (signature (ctype f)) "" "")).
Proof.
  split; [| split; [| split; [| split]]].
  - intros p m o o' Hcall Hrun.
    destruct (call_path_appends p m o o' Hcall Hrun) as (config & -> & Hinf).
    exists config. split; [reflexivity | exact Hinf].
  - intros f cf [Hc | Hc];
      unfold CppFunction.of_function_pointer, CppFunction.of_lambda in Hc;
      match type of Hc with (if ?b then _ else _) = _ => destruct b; try discriminate end;
      inversion Hc; reflexivity.
  - intros f. split; reflexivity.
  - reflexivity.
  - intros build schemaOrName f options built [Hrun | Hrun].
    + apply op_function_pointer_options_Ok in Hrun as (v & _ & ->).
      eexists. split; reflexivity.
    + apply op_lambda_options_Ok in Hrun as (v & _ & ->).
      eexists. split; reflexivity.
Qed.

Lemma inferred_schema_by_path_witness :
  (∃ config : Options.KernelRegistrationConfig,
     Options.kernels
       (snd (Options.kernel (Some DispatchKey.CPU)
               (KernelFunction.makeFromUnboxedLambda false Demo.stateless_lambda)
               (@detail.inferFunctionSchemaFromFunctor Demo.model
                  (WrapFunctionIntoRuntimeFunctor (ctype Demo.stateless_lambda)))
               Options.Options_))
     = [config]
     ∧ Options.inferred_function_schema config
       = Some (Demo.demo_inferFunctionSchemaFlattenedReturns Demo.Tensor_Tensor "" ""))
  ∧ (∃ config : Options.KernelRegistrationConfig,
       Options.kernels
         (snd (Options.kernel (Some DispatchKey.CPU)
                 (KernelFunction.makeFromBoxedFunction Demo.boxed_kernel) None
                 Options.Options_))
       = [config]
       ∧ Options.inferred_function_schema config = None).
Proof.
  pose proof (@inferred_schema_by_path Demo.model) as (Hpath & _).
  split.
  - exact (Hpath (kernel_lambda_path DispatchKey.CPU Demo.stateless_lambda) _
             Options.Options_ _ eq_refl eq_refl).
  - exact (Hpath (kernel_boxed_path Demo.boxed_kernel DispatchKey.CPU) _
             Options.Options_ _ eq_refl eq_refl).
Defined.

(** ** The registry: revoking handles *)

Section Revoke.
Import Dispatcher.

Lemma after_revoking_nil {A : Type} (s : Slot) (held : option (nat * A)) :
  after_revoking [] s held = held.
Proof.
  destruct held as [[tok a] |]; unfold after_revoking; [| reflexivity].
  rewrite bool_decide_eq_false_2; [reflexivity | apply not_elem_of_nil].
Qed.

Lemma after_revoking_cons {A : Type} (h : RegistrationHandleRAII)
    (hs : list RegistrationHandleRAII) (s : Slot) (held : option (nat * A)) :
  after_revoking (h :: hs) s held = after_revoking hs s (after_revoking [h] s held).
Proof.
  destruct held as [[tok a] |]; unfold after_revoking; [| reflexivity].
  destruct (decide (mkHandle s tok = h)) as [Heq | Hne].
  - rewrite (bool_decide_eq_true_2 (mkHandle s tok ∈ h :: hs));
      [| rewrite Heq; apply list_elem_of_here].
    rewrite (bool_decide_eq_true_2 (mkHandle s tok ∈ [h]));
      [reflexivity | rewrite Heq; apply list_elem_of_here].
  - rewrite (bool_decide_eq_false_2 (mkHandle s tok ∈ [h])).
    + apply (f_equal (fun b : bool => if b then None else Some (tok, a))).
      apply bool_decide_ext. rewrite elem_of_cons.
      split; [intros [? | ?]; [congruence | done] | intros ?; by right].
    + rewrite elem_of_cons. intros [? | Hnil]; [done | by apply not_elem_of_nil in Hnil].
Qed.

Lemma after_revoking_perm {A : Type} (hs hs' : list RegistrationHandleRAII) (s : Slot)
    (held : option (nat * A)) :
  (∀ h, h ∈ hs ↔ h ∈ hs') →
  after_revoking hs s held = after_revoking hs' s held.
Proof.
  intros Hiff. destruct held as [[tok a] |]; unfold after_revoking; [| reflexivity].
  rewrite (bool_decide_ext _ _ (Hiff _)). reflexivity.
Qed.

Lemma handle_eta (h : RegistrationHandleRAII) : mkHandle (target h) (token h) = h.
Proof. by destruct h. Qed.

Lemma single_handle_decide (h : RegistrationHandleRAII) (s : Slot) (tok : nat) :
  bool_decide (mkHandle s tok ∈ [h]) = bool_decide (s = target h ∧ tok = token h).
Proof.
  apply bool_decide_ext. rewrite list_elem_of_singleton. split.
  - intros <-. done.
  - intros [-> ->]. apply handle_eta.
Qed.

Lemma after_revoking_single_keep {A : Type} (h : RegistrationHandleRAII) (s : Slot)
    (held : option (nat * A)) :
  (∀ tok a, held = Some (tok, a) → ¬ (s = target h ∧ tok = token h)) →
  after_revoking [h] s held = held.
Proof.
  intros Hkeep. destruct held as [[tok a] |]; unfold after_revoking; [| reflexivity].
  rewrite single_handle_decide, bool_decide_eq_false_2; [reflexivity | eauto].
Qed.

Lemma after_revoking_single_drop {A : Type} (h : RegistrationHandleRAII) (s : Slot)
    (tok : nat) (a : A) :
  s = target h → tok = token h →
  after_revoking [h] s (Some (tok, a)) = None.
Proof.
  intros Hs Htok. unfold after_revoking.
  rewrite single_handle_decide, bool_decide_eq_true_2; [reflexivity | done].
Qed.

(** One revocation, read at each of the three tables. *)
Lemma revoke_schemas (h : RegistrationHandleRAII) (d : t) (op : OperatorName) :
  schemas (revoke h d) !! op = after_revoking [h] (SchemaSlot op) (schemas d !! op).
Proof.
  unfold revoke. case_bool_decide as Hown.
  - destruct (target h) as [op' | op' key' | key'] eqn:Ht; simpl.
    + destruct (decide (op' = op)) as [-> | Hne].
      * rewrite lookup_delete_eq. simpl in Hown.
        destruct (schemas d !! op) as [[tok a] |]; simpl in Hown; inversion Hown.
        symmetry. apply after_revoking_single_drop; [by rewrite Ht | done].
      * rewrite lookup_delete_ne by done.
        symmetry. apply after_revoking_single_keep.
        intros tok a _ [Heq _]. rewrite Ht in Heq. congruence.
    + symmetry. apply after_revoking_single_keep.
      intros tok a _ [Heq _]. rewrite Ht in Heq. discriminate.
    + symmetry. apply after_revoking_single_keep.
      intros tok a _ [Heq _]. rewrite Ht in Heq. discriminate.
  - symmetry. apply after_revoking_single_keep.
    intros tok a Hl [Heq Htok]. apply Hown. rewrite <- Heq. simpl.
    rewrite Hl. simpl. by rewrite Htok.
Qed.

Lemma revoke_kernelsByKey (h : RegistrationHandleRAII) (d : t) (op : OperatorName)
    (key : option DispatchKey.t) :
  kernelsByKey (revoke h d) !! (op, key)
  = after_revoking [h] (KernelSlot op key) (kernelsByKey d !! (op, key)).
Proof.
  unfold revoke. case_bool_decide as Hown.
  - destruct (target h) as [op' | op' key' | key'] eqn:Ht; simpl.
    + symmetry. apply after_revoking_single_keep.
      intros tok a _ [Heq _]. rewrite Ht in Heq. discriminate.
    + destruct (decide ((op', key') = (op, key))) as [Heq | Hne].
      * inversion Heq. subst op' key'. rewrite lookup_delete_eq. simpl in Hown.
        destruct (kernelsByKey d !! (op, key)) as [[tok a] |]; simpl in Hown; inversion Hown.
        symmetry. apply after_revoking_single_drop; [by rewrite Ht | done].
      * rewrite lookup_delete_ne by done.
        symmetry. apply after_revoking_single_keep.
        intros tok a _ [Heq _]. rewrite Ht in Heq. congruence.
    + symmetry. apply after_revoking_single_keep.
      intros tok a _ [Heq _]. rewrite Ht in Heq. discriminate.
  - symmetry. apply after_revoking_single_keep.
    intros tok a Hl [Heq Htok]. apply Hown. rewrite <- Heq. simpl.
    rewrite Hl. simpl. by rewrite Htok.
Qed.

Lemma revoke_fallbackByKey (h : RegistrationHandleRAII) (d : t) (key : DispatchKey.t) :
  fallbackByKey (revoke h d) !! key
  = after_revoking [h] (FallbackSlot key) (fallbackByKey d !! key).
Proof.
  unfold revoke. case_bool_decide as Hown.
  - destruct (target h) as [op' | op' key' | key'] eqn:Ht; simpl.
    + symmetry. apply after_revoking_single_keep.
      intros tok a _ [Heq _]. rewrite Ht in Heq. discriminate.
    + symmetry. apply after_revoking_single_keep.
      intros tok a _ [Heq _]. rewrite Ht in Heq. discriminate.
    + destruct (decide (key' = key)) as [-> | Hne].
      * rewrite lookup_delete_eq. simpl in Hown.
        destruct (fallbackByKey d !! key) as [[tok a] |]; simpl in Hown; inversion Hown.
        symmetry. apply after_revoking_single_drop; [by rewrite Ht | done].
      * rewrite lookup_delete_ne by done.
        symmetry. apply after_revoking_single_keep.
        intros tok a _ [Heq _]. rewrite Ht in Heq. congruence.
  - symmetry. apply after_revoking_single_keep.
    intros tok a Hl [Heq Htok]. apply Hown. rewrite <- Heq. simpl.
    rewrite Hl. simpl. by rewrite Htok.
Qed.

Lemma revoke_next_token (h : RegistrationHandleRAII) (d : t) :
  next_token (revoke h d) = next_token d.
Proof. unfold revoke. case_bool_decide; [destruct (target h) |]; reflexivity. Qed.
End Revoke.

Section Retire.
Import Dispatcher.

Lemma retire_revoke_all (hs : list RegistrationHandleRAII) (d : t) :
  retire hs d = revoke_all (rev hs) d.
Proof. reflexivity. Qed.

Lemma revoke_all_schemas (hs : list RegistrationHandleRAII) (d : t) (op : OperatorName) :
  schemas (revoke_all hs d) !! op = after_revoking hs (SchemaSlot op) (schemas d !! op).
Proof.
  revert d. induction hs as [| h hs IH]; intros d; simpl.
  - by rewrite after_revoking_nil.
  - rewrite IH, revoke_schemas. symmetry. apply after_revoking_cons.
Qed.

Lemma revoke_all_kernelsByKey (hs : list RegistrationHandleRAII) (d : t)
    (op : OperatorName) (key : option DispatchKey.t) :
  kernelsByKey (revoke_all hs d) !! (op, key)
  = after_revoking hs (KernelSlot op key) (kernelsByKey d !! (op, key)).
Proof.
  revert d. induction hs as [| h hs IH]; intros d; simpl.
  - by rewrite after_revoking_nil.
  - rewrite IH, revoke_kernelsByKey. symmetry. apply after_revoking_cons.
Qed.

Lemma revoke_all_fallbackByKey (hs : list RegistrationHandleRAII) (d : t)
    (key : DispatchKey.t) :
  fallbackByKey (revoke_all hs d) !! key
  = after_revoking hs (FallbackSlot key) (fallbackByKey d !! key).
Proof.
  revert d. induction hs as [| h hs IH]; intros d; simpl.
  - by rewrite after_revoking_nil.
  - rewrite IH, revoke_fallbackByKey. symmetry. apply after_revoking_cons.
Qed.

Lemma elem_of_rev_iff (hs : list RegistrationHandleRAII) (h : RegistrationHandleRAII) :
  h ∈ rev hs ↔ h ∈ hs.
Proof. rewrite !list_elem_of_In. symmetry. apply in_rev. Qed.

Lemma retire_schemas (hs : list RegistrationHandleRAII) (d : t) (op : OperatorName) :
  schemas (retire hs d) !! op = after_revoking hs (SchemaSlot op) (schemas d !! op).
Proof.
  rewrite retire_revoke_all, revoke_all_schemas.
  apply after_revoking_perm. intros h. apply elem_of_rev_iff.
Qed.

Lemma retire_kernelsByKey (hs : list RegistrationHandleRAII) (d : t)
    (op : OperatorName) (key : option DispatchKey.t) :
  kernelsByKey (retire hs d) !! (op, key)
  = after_revoking hs (KernelSlot op key) (kernelsByKey d !! (op, key)).
Proof.
  rewrite retire_revoke_all, revoke_all_kernelsByKey.
  apply after_revoking_perm. intros h. apply elem_of_rev_iff.
Qed.

Lemma retire_fallbackByKey (hs : list RegistrationHandleRAII) (d : t) (key : DispatchKey.t) :
  fallbackByKey (retire hs d) !! key
  = after_revoking hs (FallbackSlot key) (fallbackByKey d !! key).
Proof.
  rewrite retire_revoke_all, revoke_all_fallbackByKey.
  apply after_revoking_perm. intros h. apply elem_of_rev_iff.
Qed.

(** The handle acquired last is revoked first. *)
Lemma retire_snoc (hs : list RegistrationHandleRAII) (h : RegistrationHandleRAII) (d : t) :
  retire (hs ++ [h]) d = retire hs (revoke h d).
Proof. unfold retire. rewrite rev_app_distr. reflexivity. Qed.

Lemma after_revoking_kept {A : Type} (hs : list RegistrationHandleRAII) (s : Slot)
    (tok : nat) (a : A) :
  mkHandle s tok ∉ hs →
  after_revoking hs s (Some (tok, a)) = Some (tok, a).
Proof. intros Hn. unfold after_revoking. by rewrite bool_decide_eq_false_2. Qed.

Lemma after_revoking_None {A : Type} (hs : list RegistrationHandleRAII) (s : Slot) :
  after_revoking hs s (@None (nat * A)) = None.
Proof. reflexivity. Qed.

(** A lookup served by an entry that the retiring session has no handle for
    is served by the same entry afterwards. *)
Lemma retire_findKernel (hs : list RegistrationHandleRAII) (d : t) (op : OperatorName)
    (key : DispatchKey.t) (s : Slot) (tok : nat) (entry : KernelEntry) :
  findKernel d op key = Some (s, tok, entry) →
  mkHandle s tok ∉ hs →
  findKernel (retire hs d) op key = Some (s, tok, entry).
Proof.
  unfold findKernel.
  rewrite !retire_kernelsByKey, retire_fallbackByKey.
  destruct (kernelsByKey d !! (op, None)) as [[t0 e0] |].
  { intros Hf Hn. inversion Hf. subst s t0 e0. by rewrite after_revoking_kept. }
  rewrite after_revoking_None.
  destruct (kernelsByKey d !! (op, Some key)) as [[t1 e1] |].
  { intros Hf Hn. inversion Hf. subst s t1 e1. by rewrite after_revoking_kept. }
  rewrite after_revoking_None.
  destruct (fallbackByKey d !! key) as [[t2 e2] |]; [| discriminate].
  intros Hf Hn. inversion Hf. subst s t2 e2. by rewrite after_revoking_kept.
Qed.
End Retire.

(** ** The registry: registering a batch *)

Section DuplicateCheck.
Import RegisterOperators.

Lemma occurrences_elem_of (k : option DispatchKey.t) (keys : list (option DispatchKey.t)) :
  k ∈ keys → 1 ≤ occurrences k keys.
Proof.
  intros Hin. unfold occurrences.
  assert (k ∈ filter (fun k' => k' = k) keys) as Hf by (apply list_elem_of_filter; done).
  destruct (filter (fun k' => k' = k) keys); [by apply elem_of_nil in Hf | simpl; lia].
Qed.

Lemma occurrences_cons (a k : option DispatchKey.t) (keys : list (option DispatchKey.t)) :
  occurrences k (a :: keys) = (if bool_decide (a = k) then 1 else 0) + occurrences k keys.
Proof.
  unfold occurrences. rewrite filter_cons.
  destruct (decide (a = k)) as [Heq | Hne].
  - by rewrite bool_decide_eq_true_2.
  - by rewrite bool_decide_eq_false_2.
Qed.

(** The same key at two positions is counted at least twice. *)
Lemma occurrences_two (k : option DispatchKey.t) (keys : list (option DispatchKey.t))
    (i j : nat) :
  i < j → keys !! i = Some k → keys !! j = Some k → 2 ≤ occurrences k keys.
Proof.
  revert i j. induction keys as [| a keys IH]; intros i j Hlt Hi Hj.
  - discriminate.
  - rewrite occurrences_cons. destruct i as [| i], j as [| j]; try lia.
    + simpl in Hi. inversion Hi. subst a. rewrite bool_decide_eq_true_2 by done.
      simpl in Hj. apply list_elem_of_lookup_2 in Hj.
      apply occurrences_elem_of in Hj. lia.
    + simpl in Hi, Hj. specialize (IH i j ltac:(lia) Hi Hj). lia.
Qed.

(** The check of step 2 finds every batch in conflict. *)
Lemma batch_conflict_offending (ks : list Options.KernelRegistrationConfig) :
  batch_conflict ks →
  offending_keys (Options.dispatch_key <$> ks) ≠ [].
Proof.
  intros [(i & j & ci & cj & Hne & Hi & Hj & Hk) | (c1 & c2 & k & H1 & H2 & Hk1 & Hk2)].
  - set (keys := Options.dispatch_key <$> ks).
    assert (keys !! i = Some (Options.dispatch_key ci)) as Hi'
      by (unfold keys; rewrite list_lookup_fmap, Hi; reflexivity).
    assert (keys !! j = Some (Options.dispatch_key ci)) as Hj'
      by (unfold keys; rewrite list_lookup_fmap, Hj, Hk; reflexivity).
    assert (2 ≤ occurrences (Options.dispatch_key ci) keys) as Htwo.
    { destruct (Nat.lt_ge_cases i j) as [Hlt | Hge].
      - by apply (occurrences_two _ _ i j).
      - apply (occurrences_two _ _ j i); [lia | done | done]. }
    assert (Options.dispatch_key ci ∈ keys) as Hin by (by eapply list_elem_of_lookup_2).
    unfold offending_keys. destruct (mixes_catchAll_and_keyed keys).
    + intros Hnil. rewrite Hnil in Hin. by apply elem_of_nil in Hin.
    + intros Hnil.
      assert (Options.dispatch_key ci ∈ filter (fun k => 1 < occurrences k keys) keys) as Hf.
      { apply list_elem_of_filter. split; [lia | done]. }
      rewrite Hnil in Hf. by apply elem_of_nil in Hf.
  - set (keys := Options.dispatch_key <$> ks).
    assert (None ∈ keys) as Hnone.
    { rewrite <- Hk1. by apply list_elem_of_fmap_2. }
    assert (Some k ∈ keys) as Hsome.
    { rewrite <- Hk2. by apply list_elem_of_fmap_2. }
    unfold offending_keys.
    assert (mixes_catchAll_and_keyed keys = true) as ->.
    { unfold mixes_catchAll_and_keyed. apply andb_true_iff. split; apply existsb_exists.
      - exists None. split; [by apply list_elem_of_In | by apply bool_decide_eq_true_2].
      - exists (Some k). split; [by apply list_elem_of_In |].
        apply bool_decide_eq_true_2. eauto. }
    intros Hnil. rewrite Hnil in Hnone. by apply elem_of_nil in Hnone.
Qed.

(** A batch that passes the check has pairwise different keys and does not
    mix catch-all with keyed kernels. *)
Lemma offending_nil_NoDup (keys : list (option DispatchKey.t)) :
  offending_keys keys = [] →
  NoDup keys ∧ mixes_catchAll_and_keyed keys = false.
Proof.
  unfold offending_keys.
  destruct (mixes_catchAll_and_keyed keys) eqn:Hmix.
  - intros ->. split; [constructor | discriminate Hmix].
  - intros Hnil. split; [| reflexivity].
    assert (∀ k, k ∈ keys → occurrences k keys ≤ 1) as Hocc.
    { intros k Hin. destruct (decide (1 < occurrences k keys)) as [Hgt | ?]; [| lia].
      exfalso. eapply (filter_nil_not_elem_of _ _ k Hnil); done. }
    clear Hnil Hmix. induction keys as [| a keys IH]; [constructor |].
    constructor.
    + intros Hin. pose proof (Hocc a (list_elem_of_here a keys)) as Ha.
      rewrite occurrences_cons, bool_decide_eq_true_2 in Ha by done.
      apply occurrences_elem_of in Hin. lia.
    + apply IH. intros k Hin.
      pose proof (Hocc k (list_elem_of_further k a keys Hin)) as Hk.
      rewrite occurrences_cons in Hk. lia.
Qed.

Lemma checkNoDuplicateKernels_conflict (op : OperatorName) (options : Options.t) :
  batch_conflict (Options.kernels options) →
  ∃ offending : list (option DispatchKey.t),
    offending ≠ []
    ∧ checkNoDuplicateKernels_ op options = Throw (DuplicateKernels op offending).
Proof.
  intros Hc. apply batch_conflict_offending in Hc.
  unfold checkNoDuplicateKernels_.
  destruct (offending_keys (Options.dispatch_key <$> Options.kernels options)) as [| k l] eqn:Ho;
    [done |].
  exists (k :: l). split; [discriminate | reflexivity].
Qed.

Lemma checkNoDuplicateKernels_Ok (op : OperatorName) (options : Options.t) :
  checkNoDuplicateKernels_ op options = Ok tt →
  NoDup (Options.dispatch_key <$> Options.kernels options)
  ∧ mixes_catchAll_and_keyed (Options.dispatch_key <$> Options.kernels options) = false.
Proof.
  unfold checkNoDuplicateKernels_.
  destruct (offending_keys (Options.dispatch_key <$> Options.kernels options)) eqn:Ho;
    [| discriminate].
  intros _. by apply offending_nil_NoDup.
Qed.

(** Every error of schema resolution is a configuration error. *)
Lemma mergeInferredSchemas_Throw (op : OperatorName) (first : option (nat * FunctionSchema))
    (i : nat) (ks : list Options.KernelRegistrationConfig) (e : Error) :
  mergeInferredSchemas op first i ks = Throw e → classify e = ConfigurationError.
Proof.
  revert first i. induction ks as [| c ks IH]; intros first i; simpl; [discriminate |].
  destruct (Options.inferred_function_schema c) as [s |]; [| apply IH].
  destruct first as [[j s0] |]; [| apply IH].
  destruct (same_signature s0 s); [apply IH |].
  intros Heq. inversion Heq. reflexivity.
Qed.

Lemma resolveSchema_Throw (options : Options.t) (e : Error) :
  resolveSchema options = Throw e → classify e = ConfigurationError.
Proof.
  unfold resolveSchema.
  destruct (Options.schemaOrName_ options) as [[name | schema] |].
  - unfold inferSchemaFromKernels_. run_M.
    destruct (mergeInferredSchemas name None 0 (Options.kernels options)) as [[s |] | e'] eqn:Hm.
    + discriminate.
    + intros Heq. inversion Heq. reflexivity.
    + intros Heq. inversion Heq. subst e'. by eapply mergeInferredSchemas_Throw.
  - discriminate.
  - intros Heq. inversion Heq. reflexivity.
Qed.

(** [op] step by step. *)
Lemma op_steps (options : Options.t) (st : state) :
  op options st
  = match resolveSchema options with
    | Throw e => (Throw e, st)
    | Ok schema =>
        match checkNoDuplicateKernels_ (schema_name schema) options with
        | Throw e => (Throw e, st)
        | Ok _ => registerOp_ schema options st
        end
    end.
Proof.
  unfold op, checkSchemaAndRegisterOp_. run_M.
  destruct (resolveSchema options) as [schema | e]; [| reflexivity].
  destruct (checkNoDuplicateKernels_ (schema_name schema) options); reflexivity.
Qed.
End DuplicateCheck.

(** C1 (as stated, refuted).  A batch with two kernels under the key [CPU]
    is in conflict, yet registering it does not fail with the duplicate-key
    error when the schema is to be inferred and the two kernels disagree on
    the signature: schema resolution is the first step and fails first, with
    the schema mismatch error.  The table is left as it was. *)
Lemma duplicate_batch_may_fail_earlier :
  batch_conflict (Options.kernels Demo.options_cpu_twice)
  ∧ RegisterOperators.op Demo.options_cpu_twice
      (Dispatcher.empty, RegisterOperators.RegisterOperators_)
    = (Throw (InferredSchemaMismatch Demo.my_op 0 1),
       (Dispatcher.empty, RegisterOperators.RegisterOperators_))
  ∧ ∀ (op : OperatorName) (offending : list (option DispatchKey.t)),
      InferredSchemaMismatch Demo.my_op 0 1 ≠ DuplicateKernels op offending.
Proof.
  split; [| split].
  - left. exists 0, 1. do 2 eexists.
    split; [lia |]. split; [reflexivity |]. split; reflexivity.
  - reflexivity.
  - intros op offending. discriminate.
Qed.

(** C1 (amended).  Registering a batch that has the same dispatch key twice,
    or that mixes a catch-all kernel with a keyed one, fails with a
    configuration error and leaves the dispatch table and the session's
    handles exactly as they were: no schema and no kernel of the batch is
    inserted.  The error is the duplicate-kernels error, naming the operator
    and a non-empty list of offending keys, whenever the schema of the bundle
    resolves; when it does not, the error is the one of schema resolution,
    which comes first. *)
Theorem conflicting_batch_rejected (options : Options.t) (d : Dispatcher.t)
    (self : RegisterOperators.t) :
  batch_conflict (Options.kernels options) →
  ∃ e : Error,
    RegisterOperators.op options (d, self) = (Throw e, (d, self))
    ∧ classify e = ConfigurationError
    ∧ (∀ schema : FunctionSchema,
         RegisterOperators.resolveSchema options = Ok schema →
         ∃ offending : list (option DispatchKey.t),
           offending ≠ [] ∧ e = DuplicateKernels (schema_name schema) offending)
    ∧ (∀ e' : Error, RegisterOperators.resolveSchema options = Throw e' → e = e').
Proof.
  intros Hconflict. rewrite op_steps.
  destruct (RegisterOperators.resolveSchema options) as [schema | e0] eqn:Hres.
  - destruct (checkNoDuplicateKernels_conflict (schema_name schema) options Hconflict)
      as (offending & Hne & Hcheck).
    rewrite Hcheck. eexists. split; [reflexivity |]. split; [reflexivity |]. split.
    + intros schema' Heq. inversion Heq. subst schema'. eauto.
    + intros e' Heq. discriminate.
  - exists e0. split; [reflexivity |]. split; [by eapply resolveSchema_Throw |]. split.
    + intros schema Heq. discriminate.
    + intros e' Heq. by inversion Heq.
Qed.

Lemma conflicting_batch_rejected_witness :
  ∃ offending : list (option DispatchKey.t),
    offending ≠ []
    ∧ RegisterOperators.op Demo.options_cpu_twice_agreeing
        (Demo.registry_AB, Demo.session_B)
      = (Throw (DuplicateKernels Demo.my_op offending), (Demo.registry_AB, Demo.session_B)).
Proof.
  destruct (conflicting_batch_rejected Demo.options_cpu_twice_agreeing
              Demo.registry_AB Demo.session_B) as (e & Hop & _ & Hdup & _).
  - left. exists 0, 1. do 2 eexists.
    split; [lia |]. split; [reflexivity |]. split; reflexivity.
  - destruct (Hdup _ eq_refl) as (offending & Hne & ->).
    exists offending. split; [exact Hne | exact Hop].
Defined.

(** ** The registry: catch-all kernels *)

Section Install.
Import RegisterOperators.

Lemma installKernels_other (op : OperatorName) (ks : list Options.KernelRegistrationConfig)
    (d : Dispatcher.t) (key : option DispatchKey.t) :
  key ∉ (Options.dispatch_key <$> ks) →
  Dispatcher.kernelsByKey (installKernels op ks d).1 !! (op, key)
  = Dispatcher.kernelsByKey d !! (op, key).
Proof.
  revert d. induction ks as [| c ks IH]; intros d Hnin; [reflexivity |].
  rewrite fmap_cons in Hnin. apply not_elem_of_cons in Hnin as [Hne Hnin].
  simpl.
  destruct (installKernels op ks _) as [d2 hs] eqn:Hrest. simpl.
  replace d2 with (installKernels op ks
      (Dispatcher.insertKernel op (Options.dispatch_key c) (toEntry c) d).1).1
    by (unfold Dispatcher.insertKernel; simpl; by rewrite Hrest).
  rewrite IH by done. unfold Dispatcher.insertKernel. simpl.
  apply lookup_insert_ne. congruence.
Qed.

(** After a batch with pairwise different keys is installed, each of its
    kernels sits in the slot of its key. *)
Lemma installKernels_lookup (op : OperatorName) (ks : list Options.KernelRegistrationConfig)
    (d : Dispatcher.t) (c : Options.KernelRegistrationConfig) :
  NoDup (Options.dispatch_key <$> ks) →
  c ∈ ks →
  ∃ tok : nat,
    Dispatcher.kernelsByKey (installKernels op ks d).1 !! (op, Options.dispatch_key c)
    = Some (tok, toEntry c).
Proof.
  revert d. induction ks as [| c0 ks IH]; intros d Hnd Hin; [by apply elem_of_nil in Hin |].
  rewrite fmap_cons in Hnd. apply NoDup_cons in Hnd as [Hfresh Hnd].
  simpl.
  destruct (installKernels op ks _) as [d2 hs] eqn:Hrest. simpl.
  assert (d2 = (installKernels op ks
      (Dispatcher.insertKernel op (Options.dispatch_key c0) (toEntry c0) d).1).1) as ->
    by (unfold Dispatcher.insertKernel; simpl; by rewrite Hrest).
  apply elem_of_cons in Hin as [-> | Hin].
  - rewrite installKernels_other by done.
    unfold Dispatcher.insertKernel. simpl. rewrite lookup_insert_eq. eauto.
  - by apply IH.
Qed.


(** A successful [registerOp_] installed the schema and the kernels. *)
Lemma registerOp_Ok (schema : FunctionSchema) (options : Options.t) (d d' : Dispatcher.t)
    (self self' : t) :
  registerOp_ schema options (d, self) = (Ok tt, (d', self')) →
  d' = (installKernels (schema_name schema) (Options.kernels options)
          (installSchema schema d).1).1
  ∧ registrars_ self'
    = registrars_ self
      ++ (installSchema schema d).2
      ++ (installKernels (schema_name schema) (Options.kernels options)
            (installSchema schema d).1).2.
Proof.
  unfold registerOp_. run_M.
  destruct (checkSchemaInstall d schema); [| discriminate]. simpl.
  destruct (checkSlotsFree d (schema_name schema) (Options.kernels options)); [| discriminate].
  simpl.
  destruct (installSchema schema d) as [d1 hs1]. simpl.
  destruct (installKernels (schema_name schema) (Options.kernels options) d1) as [d2 hs2].
  simpl. intros Heq. inversion Heq. split; reflexivity.
Qed.

Lemma resolveSchema_name (options : Options.t) (schema : FunctionSchema) :
  resolveSchema options = Ok schema →
  bundle_name options = Some (schema_name schema).
Proof.
  unfold resolveSchema, bundle_name.
  destruct (Options.schemaOrName_ options) as [[name | s] |].
  - unfold inferSchemaFromKernels_. run_M.
    destruct (mergeInferredSchemas name None 0 (Options.kernels options)) as [[s |] | e];
      try discriminate.
    intros Heq. inversion Heq. reflexivity.
  - intros Heq. inversion Heq. reflexivity.
  - discriminate.
Qed.

Lemma resolve_catchAll (d : Dispatcher.t) (op : OperatorName) (tok : nat)
    (entry : Dispatcher.KernelEntry) (key : DispatchKey.t) :
  Dispatcher.kernelsByKey d !! (op, None) = Some (tok, entry) →
  Dispatcher.resolve d op key = Ok entry.
Proof. intros Hl. unfold Dispatcher.resolve, Dispatcher.findKernel. by rewrite Hl. Qed.
End Install.

(** C2.  When a registration that carries a catch-all kernel for an operator
    succeeds, resolving that operator returns the catch-all kernel at every
    dispatch key: the key does not enter the result.  More generally, an
    operator whose catch-all slot holds an entry resolves to that entry at
    every key. *)
Theorem catchAll_resolves_at_every_key :
  (∀ (d : Dispatcher.t) (op : OperatorName) (tok : nat) (entry : Dispatcher.KernelEntry)
     (key : DispatchKey.t),
     Dispatcher.kernelsByKey d !! (op, None) = Some (tok, entry) →
     Dispatcher.resolve d op key = Ok entry)
  ∧ (∀ (options : Options.t) (d d' : Dispatcher.t) (self self' : RegisterOperators.t)
       (config : Options.KernelRegistrationConfig) (op : OperatorName),
       RegisterOperators.op options (d, self) = (Ok tt, (d', self')) →
       bundle_name options = Some op →
       config ∈ Options.kernels options →
       Options.dispatch_key config = None →
       ∀ key : DispatchKey.t,
         Dispatcher.resolve d' op key = Ok (RegisterOperators.toEntry config)).
Proof.
  split; [apply resolve_catchAll |].
  intros options d d' self self' config op Hop Hname Hin Hkey key.
  rewrite op_steps in Hop.
  destruct (RegisterOperators.resolveSchema options) as [schema | e] eqn:Hres; [| discriminate].
  apply resolveSchema_name in Hres. rewrite Hname in Hres. inversion Hres. subst op.
  destruct (RegisterOperators.checkNoDuplicateKernels_ (schema_name schema) options) as [[] | e]
    eqn:Hcheck; [| discriminate].
  apply checkNoDuplicateKernels_Ok in Hcheck as [Hnd _].
  apply registerOp_Ok in Hop as [-> _].
  destruct (installKernels_lookup (schema_name schema) (Options.kernels options)
              (RegisterOperators.installSchema schema d).1 config Hnd Hin) as (tok & Hl).
  rewrite Hkey in Hl. by eapply resolve_catchAll.
Qed.

Lemma catchAll_resolves_at_every_key_witness :
  let registered :=
    fst (snd (RegisterOperators.op Demo.options_catchAll
                (Dispatcher.empty, RegisterOperators.RegisterOperators_))) in
  let entry :=
    {| Dispatcher.callable := KernelFunction.makeFromUnboxedLambda false Demo.stateless_lambda;
       Dispatcher.inferredSchema :=
         Some (Demo.demo_inferFunctionSchemaFlattenedReturns Demo.Tensor_Tensor "" "") |} in
  Dispatcher.resolve registered Demo.my_op DispatchKey.CPU = Ok entry
  ∧ Dispatcher.resolve registered Demo.my_op DispatchKey.XLA = Ok entry
  ∧ Dispatcher.resolve registered Demo.my_op (DispatchKey.Other 7) = Ok entry.
Proof.
  pose proof catchAll_resolves_at_every_key as (_ & Hreg).
  pose proof (Hreg Demo.options_catchAll Dispatcher.empty
           (fst (snd (RegisterOperators.op Demo.options_catchAll
                        (Dispatcher.empty, RegisterOperators.RegisterOperators_))))
           RegisterOperators.RegisterOperators_
           (snd (snd (RegisterOperators.op Demo.options_catchAll
                        (Dispatcher.empty, RegisterOperators.RegisterOperators_))))
           {| Options.dispatch_key := None;
              Options.func := KernelFunction.makeFromUnboxedLambda false Demo.stateless_lambda;
              Options.inferred_function_schema :=
                Some (Demo.demo_inferFunctionSchemaFlattenedReturns Demo.Tensor_Tensor "" "") |}
           Demo.my_op) as Hall.
  assert (RegisterOperators.op Demo.options_catchAll
            (Dispatcher.empty, RegisterOperators.RegisterOperators_)
          = (Ok tt,
             (fst (snd (RegisterOperators.op Demo.options_catchAll
                          (Dispatcher.empty, RegisterOperators.RegisterOperators_))),
              snd (snd (RegisterOperators.op Demo.options_catchAll
                          (Dispatcher.empty, RegisterOperators.RegisterOperators_))))))
    as Hrun by (vm_compute; reflexivity).
  specialize (Hall Hrun eq_refl (list_elem_of_here _ _) eq_refl).
  split; [| split]; apply Hall.
Defined.

(** ** The registry: what a registration acquires *)

Section Acquire.
Import RegisterOperators.

Lemma installKernels_cons (op : OperatorName) (c : Options.KernelRegistrationConfig)
    (ks : list Options.KernelRegistrationConfig) (d : Dispatcher.t) :
  installKernels op (c :: ks) d
  = ((installKernels op ks
        (Dispatcher.insertKernel op (Options.dispatch_key c) (toEntry c) d).1).1,
     (Dispatcher.insertKernel op (Options.dispatch_key c) (toEntry c) d).2
     :: (installKernels op ks
           (Dispatcher.insertKernel op (Options.dispatch_key c) (toEntry c) d).1).2).
Proof.
  simpl. unfold Dispatcher.insertKernel. simpl.
  destruct (installKernels op ks _) as [d2 hs]. reflexivity.
Qed.

Lemma installKernels_tables (op : OperatorName) (ks : list Options.KernelRegistrationConfig)
    (d : Dispatcher.t) :
  Dispatcher.schemas (installKernels op ks d).1 = Dispatcher.schemas d
  ∧ Dispatcher.fallbackByKey (installKernels op ks d).1 = Dispatcher.fallbackByKey d
  ∧ Dispatcher.next_token (installKernels op ks d).1 = Dispatcher.next_token d + length ks.
Proof.
  revert d. induction ks as [| c ks IH]; intros d.
  - simpl. repeat split. lia.
  - rewrite installKernels_cons. cbn [fst snd length].
    destruct (IH (Dispatcher.insertKernel op (Options.dispatch_key c) (toEntry c) d).1)
      as (-> & -> & ->).
    simpl. repeat split. lia.
Qed.

Lemma installKernels_frame (op : OperatorName) (ks : list Options.KernelRegistrationConfig)
    (d : Dispatcher.t) (op' : OperatorName) (key : option DispatchKey.t) :
  ¬ (op' = op ∧ key ∈ (Options.dispatch_key <$> ks)) →
  Dispatcher.kernelsByKey (installKernels op ks d).1 !! (op', key)
  = Dispatcher.kernelsByKey d !! (op', key).
Proof.
  revert d. induction ks as [| c ks IH]; intros d Hnin; [reflexivity |].
  rewrite installKernels_cons. cbn [fst snd]. rewrite IH.
  - simpl. apply lookup_insert_ne. intros Heq. inversion Heq. subst.
    apply Hnin. split; [reflexivity |]. rewrite fmap_cons. apply list_elem_of_here.
  - intros [-> Hin]. apply Hnin. split; [reflexivity |].
    rewrite fmap_cons. by apply list_elem_of_further.
Qed.

(** Each handle of an installed batch points at the kernel it was returned
    for, under a token drawn from the counter during the installation. *)
Lemma installKernels_handles (op : OperatorName) (ks : list Options.KernelRegistrationConfig)
    (d : Dispatcher.t) (h : Dispatcher.RegistrationHandleRAII) :
  NoDup (Options.dispatch_key <$> ks) →
  h ∈ (installKernels op ks d).2 →
  ∃ c : Options.KernelRegistrationConfig,
    c ∈ ks
    ∧ Dispatcher.target h = Dispatcher.KernelSlot op (Options.dispatch_key c)
    ∧ Dispatcher.kernelsByKey (installKernels op ks d).1 !! (op, Options.dispatch_key c)
      = Some (Dispatcher.token h, toEntry c)
    ∧ Dispatcher.next_token d ≤ Dispatcher.token h
    ∧ Dispatcher.token h < Dispatcher.next_token d + length ks.
Proof.
  revert d. induction ks as [| c ks IH]; intros d Hnd Hin; [by apply elem_of_nil in Hin |].
  rewrite fmap_cons in Hnd. apply NoDup_cons in Hnd as [Hfresh Hnd].
  rewrite installKernels_cons in Hin |- *. cbn [fst snd length] in Hin |- *.
  apply elem_of_cons in Hin as [-> | Hin].
  - exists c. simpl. split; [apply list_elem_of_here |]. split; [reflexivity |]. split.
    + rewrite installKernels_frame by (intros [_ ?]; done).
      simpl. apply lookup_insert_eq.
    + lia.
  - destruct (IH _ Hnd Hin) as (c' & Hc' & Ht & Hl & Hlo & Hhi).
    exists c'. split; [by apply list_elem_of_further |]. split; [exact Ht |].
    split; [exact Hl |]. simpl in Hlo, Hhi. lia.
Qed.

(** Each kernel of an installed batch has a handle. *)
Lemma installKernels_covered (op : OperatorName) (ks : list Options.KernelRegistrationConfig)
    (d : Dispatcher.t) (c : Options.KernelRegistrationConfig) :
  c ∈ ks →
  ∃ h : Dispatcher.RegistrationHandleRAII,
    h ∈ (installKernels op ks d).2
    ∧ Dispatcher.target h = Dispatcher.KernelSlot op (Options.dispatch_key c).
Proof.
  revert d. induction ks as [| c0 ks IH]; intros d Hin; [by apply elem_of_nil in Hin |].
  rewrite installKernels_cons. cbn [fst snd].
  apply elem_of_cons in Hin as [-> | Hin].
  - eexists. split; [apply list_elem_of_here | reflexivity].
  - destruct (IH (Dispatcher.insertKernel op (Options.dispatch_key c0) (toEntry c0) d).1 Hin)
      as (h & Hh & Ht).
    exists h. split; [by apply list_elem_of_further | exact Ht].
Qed.

Lemma checkSlotsFree_Ok (d : Dispatcher.t) (op : OperatorName)
    (ks : list Options.KernelRegistrationConfig) (c : Options.KernelRegistrationConfig) :
  checkSlotsFree d op ks = Ok tt →
  c ∈ ks →
  Dispatcher.kernelsByKey d !! (op, Options.dispatch_key c) = None.
Proof.
  unfold checkSlotsFree.
  destruct (List.find _ ks) eqn:Hfind; [discriminate |].
  intros _ Hin. apply list_elem_of_In in Hin.
  pose proof (List.find_none _ _ Hfind c Hin) as Hfree. simpl in Hfree.
  apply bool_decide_eq_false in Hfree.
  destruct (Dispatcher.kernelsByKey d !! (op, Options.dispatch_key c)); [| reflexivity].
  exfalso. apply Hfree. eauto.
Qed.

Lemma registerOp_checks (schema : FunctionSchema) (options : Options.t) (st st' : state) :
  registerOp_ schema options st = (Ok tt, st') →
  checkSlotsFree st.1 (schema_name schema) (Options.kernels options) = Ok tt.
Proof.
  destruct st as [d self]. unfold registerOp_. run_M.
  destruct (checkSchemaInstall d schema); [| discriminate]. simpl.
  destruct (checkSlotsFree d (schema_name schema) (Options.kernels options)) as [[] | e];
    [reflexivity | discriminate].
Qed.

Lemma installSchema_cases (schema : FunctionSchema) (d : Dispatcher.t) :
  (Dispatcher.schemas d !! schema_name schema = None
   ∧ installSchema schema d
     = ((Dispatcher.insertSchema (schema_name schema) schema d).1,
        [(Dispatcher.insertSchema (schema_name schema) schema d).2]))
  ∨ (is_Some (Dispatcher.schemas d !! schema_name schema)
     ∧ installSchema schema d = (d, [])).
Proof.
  unfold installSchema.
  destruct (Dispatcher.schemas d !! schema_name schema) as [x |]; [right | left]; eauto.
Qed.

Lemma installSchema_acquires (schema : FunctionSchema) (d : Dispatcher.t) :
  Dispatcher.kernelsByKey (installSchema schema d).1 = Dispatcher.kernelsByKey d
  ∧ Dispatcher.fallbackByKey (installSchema schema d).1 = Dispatcher.fallbackByKey d
  ∧ Dispatcher.next_token d ≤ Dispatcher.next_token (installSchema schema d).1
  ∧ (∀ h, h ∈ (installSchema schema d).2 →
       Dispatcher.target h = Dispatcher.SchemaSlot (schema_name schema)
       ∧ Dispatcher.schemas d !! schema_name schema = None
       ∧ fst <$> Dispatcher.schemas (installSchema schema d).1 !! schema_name schema
         = Some (Dispatcher.token h)
       ∧ Dispatcher.next_token d ≤ Dispatcher.token h
       ∧ Dispatcher.token h < Dispatcher.next_token (installSchema schema d).1)
  ∧ (∀ op, fst <$> Dispatcher.schemas (installSchema schema d).1 !! op
           ≠ fst <$> Dispatcher.schemas d !! op →
       ∃ h, h ∈ (installSchema schema d).2 ∧ Dispatcher.target h = Dispatcher.SchemaSlot op).
Proof.
  destruct (installSchema_cases schema d) as [[Hnone ->] | [Hsome ->]]; simpl.
  - split; [reflexivity |]. split; [reflexivity |]. split; [lia |]. split.
    + intros h Hin. apply list_elem_of_singleton in Hin. subst h. simpl.
      rewrite lookup_insert_eq. simpl. split; [reflexivity |]. split; [exact Hnone |].
      split; [reflexivity |]. split; lia.
    + intros op Hchanged. destruct (decide (op = schema_name schema)) as [-> | Hne].
      * eexists. split; [apply list_elem_of_here | reflexivity].
      * rewrite lookup_insert_ne in Hchanged by done. done.
  - split; [reflexivity |]. split; [reflexivity |]. split; [lia |]. split.
    + intros h Hin. by apply elem_of_nil in Hin.
    + intros op Hchanged. done.
Qed.

(** What a successful registration acquires: the handles appended to
    [registrars_] point at slots that were empty before and now hold the
    entry of the handle, with a token drawn during this registration; and
    every slot whose entry changed has such a handle. *)
Lemma op_acquires (options : Options.t) (d d' : Dispatcher.t) (self self' : t) :
  op options (d, self) = (Ok tt, (d', self')) →
  ∃ acquired : list Dispatcher.RegistrationHandleRAII,
    registrars_ self' = registrars_ self ++ acquired
    ∧ (∀ h, h ∈ acquired →
         Dispatcher.owner_at d (Dispatcher.target h) = None
         ∧ Dispatcher.owner_at d' (Dispatcher.target h) = Some (Dispatcher.token h)
         ∧ Dispatcher.next_token d ≤ Dispatcher.token h
         ∧ Dispatcher.token h < Dispatcher.next_token d')
    ∧ (∀ s, Dispatcher.owner_at d' s ≠ Dispatcher.owner_at d s →
         ∃ h, h ∈ acquired ∧ Dispatcher.target h = s).
Proof.
  intros Hop. rewrite op_steps in Hop.
  destruct (resolveSchema options) as [schema | e]; [| discriminate].
  destruct (checkNoDuplicateKernels_ (schema_name schema) options) as [[] | e] eqn:Hcheck;
    [| discriminate].
  apply checkNoDuplicateKernels_Ok in Hcheck as [Hnd _].
  pose proof (registerOp_checks _ _ _ _ Hop) as Hfree. simpl in Hfree.
  apply registerOp_Ok in Hop as [-> Hregs].
  destruct (installSchema_acquires schema d) as (Hk1 & Hf1 & Hmono & Hh1 & Hc1).
  remember (installSchema schema d) as r1 eqn:Hr1. clear Hr1.
  destruct r1 as [d1 hs1]. simpl in *.
  destruct (installKernels_tables (schema_name schema) (Options.kernels options) d1)
    as (Hs2 & Hf2 & Hn2).
  exists (hs1 ++ (installKernels (schema_name schema) (Options.kernels options) d1).2).
  split; [exact Hregs |]. split.
  - intros h Hin. apply elem_of_app in Hin as [Hin | Hin].
    + destruct (Hh1 h Hin) as (Ht & Hnone & Hown & Hlo & Hhi).
      rewrite Ht. simpl. rewrite Hs2, Hn2, Hnone, Hown. repeat split; lia.
    + destruct (installKernels_handles _ _ d1 h Hnd Hin) as (c & Hc & Ht & Hl & Hlo & Hhi).
      rewrite Ht. simpl. rewrite Hl. simpl.
      rewrite (checkSlotsFree_Ok d _ _ c Hfree Hc). simpl.
      repeat split; lia.
  - intros s Hchanged. destruct s as [op' | op' key | key]; simpl in Hchanged.
    + rewrite Hs2 in Hchanged. destruct (Hc1 op' Hchanged) as (h & Hh & Ht).
      exists h. split; [apply elem_of_app; by left | exact Ht].
    + destruct (decide (op' = schema_name schema
                        ∧ key ∈ (Options.dispatch_key <$> Options.kernels options)))
        as [[-> Hin] | Hnot].
      * apply list_elem_of_fmap_1 in Hin as (c & -> & Hc).
        destruct (installKernels_covered (schema_name schema) _ d1 c Hc) as (h & Hh & Ht).
        exists h. split; [apply elem_of_app; by right | exact Ht].
      * rewrite installKernels_frame, Hk1 in Hchanged by done. done.
    + rewrite Hf2, Hf1 in Hchanged. done.
Qed.
End Acquire.

(** ** The registry: retiring a session *)

(** C7.  Destroying a session ([RegisterOperators] or [Library]) revokes the
    handles of its [registrars_] in the reverse order of acquisition: the
    handle acquired last goes first.  Afterwards no entry that one of its
    handles was returned for is left, and every table holds exactly what it
    held before minus those entries.  An entry the session has no handle
    for stays where it was, also under the same operator: a lookup that such
    an entry served is served by it afterwards, so it resolves as before, and
    a schema such an entry holds is still returned by [getSchema].  The
    handles a session owns are those of the entries it introduced: a
    successful registration appends to [registrars_] one handle for each slot
    it filled, and fills no slot without one. *)
Theorem retire_removes_own_entries_only
    (hs : list Dispatcher.RegistrationHandleRAII) (d : Dispatcher.t) :
  (∀ (self : RegisterOperators.t) (lib : Library.t),
     RegisterOperators.registrars_ self = hs → Library.registrars_ lib = hs →
     RegisterOperators.destroy self d = Dispatcher.retire hs d
     ∧ Library.destroy lib d = Dispatcher.retire hs d)
  ∧ (∀ (earlier : list Dispatcher.RegistrationHandleRAII) (last : Dispatcher.RegistrationHandleRAII),
       hs = (earlier ++ [last])%list →
       Dispatcher.retire hs d = Dispatcher.retire earlier (Dispatcher.revoke last d))
  ∧ (∀ h : Dispatcher.RegistrationHandleRAII,
       h ∈ hs →
       Dispatcher.owner_at (Dispatcher.retire hs d) (Dispatcher.target h)
       ≠ Some (Dispatcher.token h))
  ∧ (∀ op : OperatorName,
       Dispatcher.schemas (Dispatcher.retire hs d) !! op
       = after_revoking hs (Dispatcher.SchemaSlot op) (Dispatcher.schemas d !! op))
  ∧ (∀ (op : OperatorName) (key : option DispatchKey.t),
       Dispatcher.kernelsByKey (Dispatcher.retire hs d) !! (op, key)
       = after_revoking hs (Dispatcher.KernelSlot op key) (Dispatcher.kernelsByKey d !! (op, key)))
  ∧ (∀ key : DispatchKey.t,
       Dispatcher.fallbackByKey (Dispatcher.retire hs d) !! key
       = after_revoking hs (Dispatcher.FallbackSlot key) (Dispatcher.fallbackByKey d !! key))
  ∧ (∀ (op : OperatorName) (key : DispatchKey.t) (s : Dispatcher.Slot) (tok : nat)
       (entry : Dispatcher.KernelEntry),
       Dispatcher.findKernel d op key = Some (s, tok, entry) →
       Dispatcher.mkHandle s tok ∉ hs →
       Dispatcher.findKernel (Dispatcher.retire hs d) op key = Some (s, tok, entry)
       ∧ Dispatcher.resolve (Dispatcher.retire hs d) op key = Ok entry
       ∧ Dispatcher.resolve d op key = Ok entry)
  ∧ (∀ (op : OperatorName) (tok : nat) (schema : FunctionSchema),
       Dispatcher.schemas d !! op = Some (tok, schema) →
       Dispatcher.mkHandle (Dispatcher.SchemaSlot op) tok ∉ hs →
       Dispatcher.getSchema (Dispatcher.retire hs d) op = Ok schema)
  ∧ (∀ (options : Options.t) (d0 d1 : Dispatcher.t) (self self' : RegisterOperators.t),
       RegisterOperators.op options (d0, self) = (Ok tt, (d1, self')) →
       ∃ acquired : list Dispatcher.RegistrationHandleRAII,
         RegisterOperators.registrars_ self' = RegisterOperators.registrars_ self ++ acquired
         ∧ (∀ h, h ∈ acquired →
              Dispatcher.owner_at d0 (Dispatcher.target h) = None
              ∧ Dispatcher.owner_at d1 (Dispatcher.target h) = Some (Dispatcher.token h)
              ∧ Dispatcher.next_token d0 ≤ Dispatcher.token h
              ∧ Dispatcher.token h < Dispatcher.next_token d1)
         ∧ (∀ s, Dispatcher.owner_at d1 s ≠ Dispatcher.owner_at d0 s →
              ∃ h, h ∈ acquired ∧ Dispatcher.target h = s)).
Proof.
  repeat apply conj.
  - intros self lib Hs Hl. unfold RegisterOperators.destroy, Library.destroy.
    by rewrite Hs, Hl.
  - intros earlier last ->. apply retire_snoc.
  - intros h Hin Hown.
    assert (after_revoking hs (Dispatcher.target h) (Some (Dispatcher.token h, tt)) = None)
      as Hdrop.
    { unfold after_revoking. rewrite handle_eta. by rewrite bool_decide_eq_true_2. }
    destruct (Dispatcher.target h) as [op | op key | key] eqn:Ht; simpl in Hown.
    + rewrite retire_schemas in Hown.
      destruct (Dispatcher.schemas d !! op) as [[tok a] |]; [| discriminate].
      unfold after_revoking in Hown, Hdrop.
      destruct (bool_decide (Dispatcher.mkHandle (Dispatcher.SchemaSlot op) tok ∈ hs)) eqn:Hb;
        [discriminate |].
      simpl in Hown. inversion Hown. subst tok. rewrite Hb in Hdrop. discriminate.
    + rewrite retire_kernelsByKey in Hown.
      destruct (Dispatcher.kernelsByKey d !! (op, key)) as [[tok a] |]; [| discriminate].
      unfold after_revoking in Hown, Hdrop.
      destruct (bool_decide (Dispatcher.mkHandle (Dispatcher.KernelSlot op key) tok ∈ hs)) eqn:Hb;
        [discriminate |].
      simpl in Hown. inversion Hown. subst tok. rewrite Hb in Hdrop. discriminate.
    + rewrite retire_fallbackByKey in Hown.
      destruct (Dispatcher.fallbackByKey d !! key) as [[tok a] |]; [| discriminate].
      unfold after_revoking in Hown, Hdrop.
      destruct (bool_decide (Dispatcher.mkHandle (Dispatcher.FallbackSlot key) tok ∈ hs)) eqn:Hb;
        [discriminate |].
      simpl in Hown. inversion Hown. subst tok. rewrite Hb in Hdrop. discriminate.
  - apply retire_schemas.
  - apply retire_kernelsByKey.
  - apply retire_fallbackByKey.
  - intros op key s tok entry Hf Hn.
    pose proof (retire_findKernel hs d op key s tok entry Hf Hn) as Hf'.
    unfold Dispatcher.resolve. rewrite Hf, Hf'. done.
  - intros op tok schema Hl Hn. unfold Dispatcher.getSchema.
    rewrite retire_schemas, Hl, after_revoking_kept by done. reflexivity.
  - intros options d0 d1 self self' Hop. exact (op_acquires options d0 d1 self self' Hop).
Qed.

Lemma retire_removes_own_entries_only_witness :
  Dispatcher.resolve (RegisterOperators.destroy Demo.session_A Demo.registry_AB)
    Demo.my_op DispatchKey.CUDA
  = Ok (RegisterOperators.toEntry
          {| Options.dispatch_key := Some DispatchKey.CUDA;
             Options.func := KernelFunction.makeFromUnboxedLambda false Demo.stateless_lambda;
             Options.inferred_function_schema :=
               Some (Demo.demo_inferFunctionSchemaFlattenedReturns Demo.Tensor_Tensor "" "") |})
  ∧ Dispatcher.resolve Demo.registry_AB Demo.my_op DispatchKey.CPU
    = Ok (RegisterOperators.toEntry
            {| Options.dispatch_key := Some DispatchKey.CPU;
               Options.func := KernelFunction.makeFromUnboxedRuntimeFunction false Demo.my_kernel_cpu;
               Options.inferred_function_schema :=
                 Some (Demo.demo_inferFunctionSchemaFlattenedReturns Demo.Tensor_Tensor "" "") |})
  ∧ Dispatcher.findKernel (RegisterOperators.destroy Demo.session_A Demo.registry_AB)
      Demo.my_op DispatchKey.CPU
    = None.
Proof.
  pose proof (retire_removes_own_entries_only
                (RegisterOperators.registrars_ Demo.session_A) Demo.registry_AB)
    as (_ & _ & _ & _ & _ & _ & Hkept & _ & _).
  split; [| split].
  - refine (proj1 (proj2 (Hkept Demo.my_op DispatchKey.CUDA
                            (Dispatcher.KernelSlot Demo.my_op (Some DispatchKey.CUDA)) 2 _ _ _))).
    + vm_compute. reflexivity.
    + vm_compute. intros Hin. inversion Hin as [| ? ? ? Hin']; subst.
      inversion Hin' as [| ? ? ? Hin'']; subst. inversion Hin''.
  - vm_compute. reflexivity.
  - vm_compute. reflexivity.
Defined.

(** ** The legacy [op] shorthands *)

Section ShorthandRegisters.
Import RegisterOperators.





Context `{SchemaModel} (build : BuildConfig).

End ShorthandRegisters.




(** ** Lambdas with a capture *)




(** * Further properties of the header *)

(** ** The builder: alias analysis, and how its calls compose *)

Lemma aliasAnalysis_fresh (o : Options.t) (k : AliasAnalysisKind) :
  Options.aliasAnalysisKind_ o = None →
  Options.aliasAnalysis k o = (Ok tt, Options.set_aliasAnalysisKind_ k o).
Proof.
  intros Ho. unfold Options.aliasAnalysis. run_M.
  rewrite (is_Some_bool_None _ Ho). reflexivity.
Qed.

Lemma aliasAnalysis_again (o : Options.t) (k : AliasAnalysisKind) :
  is_Some (Options.aliasAnalysisKind_ o) →
  Options.aliasAnalysis k o = (Throw AliasAnalysisSpecifiedTwice, o).
Proof.
  intros Ho. unfold Options.aliasAnalysis. run_M.
  rewrite (is_Some_bool_Some _ Ho). reflexivity.
Qed.

(** X1.  [aliasAnalysis(kind)] sets the alias analysis kind at most once.
    On a builder without a kind it stores the kind and leaves the schema and
    the kernels alone; on a builder that has one, and so on any later call,
    it throws a configuration error and leaves the builder as it was. *)
Theorem aliasAnalysis_set_at_most_once (o : Options.t) (k : AliasAnalysisKind) :
  (Options.aliasAnalysisKind_ o = None →
     ∃ o' : Options.t,
       Options.aliasAnalysis k o = (Ok tt, o')
       ∧ Options.aliasAnalysisKind_ o' = Some k
       ∧ Options.schemaOrName_ o' = Options.schemaOrName_ o
       ∧ Options.kernels o' = Options.kernels o
       ∧ ∀ k' : AliasAnalysisKind,
           Options.aliasAnalysis k' o' = (Throw AliasAnalysisSpecifiedTwice, o'))
  ∧ (is_Some (Options.aliasAnalysisKind_ o) →
       Options.aliasAnalysis k o = (Throw AliasAnalysisSpecifiedTwice, o))
  ∧ classify AliasAnalysisSpecifiedTwice = ConfigurationError.
Proof.
  split; [| split].
  - intros Ho. exists (Options.set_aliasAnalysisKind_ k o).
    split; [by apply aliasAnalysis_fresh |].
    split; [reflexivity |]. split; [reflexivity |]. split; [reflexivity |].
    intros k'. apply aliasAnalysis_again. simpl. eauto.
  - apply aliasAnalysis_again.
  - reflexivity.
Qed.

Lemma aliasAnalysis_set_at_most_once_witness :
  ∃ o' : Options.t,
    Options.aliasAnalysis PURE_FUNCTION Demo.options_cpu = (Ok tt, o')
    ∧ Options.aliasAnalysisKind_ o' = Some PURE_FUNCTION
    ∧ Options.aliasAnalysis CONSERVATIVE o' = (Throw AliasAnalysisSpecifiedTwice, o').
Proof.
  destruct (aliasAnalysis_set_at_most_once Demo.options_cpu PURE_FUNCTION) as (Hfresh & _).
  destruct (Hfresh eq_refl) as (o' & Hrun & Hkind & _ & _ & Hagain).
  exists o'. split; [exact Hrun |]. split; [exact Hkind | apply Hagain].
Defined.

(** What an accepted kernel call does on every builder: it appends one
    configuration under the key of the path, or, for a null function pointer
    on a run-time path, it throws and changes nothing. *)
Lemma call_path_run `{SchemaModel} (p : KernelPath) (m : M Options.t unit) :
  call_path p = Accepted m →
  ∃ config : Options.KernelRegistrationConfig,
    Options.dispatch_key config = path_key p
    ∧ ((∀ o, m o = (Ok tt, Options.push_back config o))
       ∨ ((∀ o, m o = (Throw KernelFunctionNull, o))
          ∧ ∃ f, path_callable p = Some f ∧ is_nullptr f = true)).
Proof.
  destruct p; simpl;
    unfold Options.kernel_boxed, Options.catchAllKernel_boxed,
      Options.kernel_functor, Options.catchAllKernel_functor,
      Options.kernel_function, Options.catchAllKernel_function,
      Options.kernel_runtime_function, Options.catchAllKernel_runtime_function,
      Options.impl_unboxedOnlyKernel, Options.impl_unboxedOnlyCatchAllKernel,
      Options.kernel_lambda, Options.catchAllKernel_lambda;
    intros Hcall;
    repeat match type of Hcall with
           | (if ?b then _ else _) = _ => destruct b eqn:?; try discriminate
           end;
    inversion Hcall; subst m; clear Hcall;
    try (eexists; split; [| left; intros o; reflexivity]; reflexivity).
  - destruct (is_nullptr kernel_func) eqn:Hnull.
    + eexists {| Options.dispatch_key := Some dispatch_key;
                 Options.func := KernelFunction.invalid;
                 Options.inferred_function_schema := None |}.
      split; [reflexivity |]. right. split; [| eauto].
      intros o. run_M. reflexivity.
    + eexists. split; [| left; intros o; run_M; reflexivity]. reflexivity.
  - destruct (is_nullptr kernel_func) eqn:Hnull.
    + eexists {| Options.dispatch_key := None;
                 Options.func := KernelFunction.invalid;
                 Options.inferred_function_schema := None |}.
      split; [reflexivity |]. right. split; [| eauto].
      intros o. run_M. reflexivity.
    + eexists. split; [| left; intros o; run_M; reflexivity]. reflexivity.
Qed.

Lemma chain_calls_cons (m : M Options.t unit) (ms : list (M Options.t unit)) (o : Options.t) :
  chain_calls (m :: ms) o
  = match m o with
    | (Ok _, o1) => chain_calls ms o1
    | (Throw e, o1) => (Throw e, o1)
    end.
Proof. reflexivity. Qed.

(** X2.  Kernel calls accumulate in call order.  When a sequence of accepted
    [kernel] / [catchAllKernel] / [impl_unboxedOnly...] calls runs through on
    a builder, the builder's kernel list is the old list followed by one
    configuration per call, in the order of the calls, each under the key of
    its call (none for the catch-all forms); the schema and the alias analysis
    kind of the builder are not touched. *)
Theorem kernel_calls_accumulate_in_order `{SchemaModel} (ps : list KernelPath)
    (ms : list (M Options.t unit)) (o o' : Options.t) :
  Forall2 (fun p m => call_path p = Accepted m) ps ms →
  chain_calls ms o = (Ok tt, o') →
  ∃ new : list Options.KernelRegistrationConfig,
    Options.kernels o' = Options.kernels o ++ new
    ∧ Options.dispatch_key <$> new = path_key <$> ps
    ∧ length new = length ps
    ∧ Options.schemaOrName_ o' = Options.schemaOrName_ o
    ∧ Options.aliasAnalysisKind_ o' = Options.aliasAnalysisKind_ o.
Proof.
  intros Hall. revert o. induction Hall as [| p m ps ms Hp _ IH]; intros o Hrun.
  - inversion Hrun. subst o'. exists []. rewrite app_nil_r. repeat split.
  - rewrite chain_calls_cons in Hrun.
    destruct (call_path_run p m Hp) as (config & Hkey & [Hok | [Hnull _]]).
    + rewrite Hok in Hrun. destruct (IH _ Hrun) as (new & Hk & Hkeys & Hlen & Hs & Ha).
      exists (config :: new).
      split; [rewrite Hk; simpl; by rewrite <- app_assoc |].
      split; [by rewrite !fmap_cons, Hkey, Hkeys |].
      split; [simpl; by rewrite Hlen |].
      split; [rewrite Hs; reflexivity | rewrite Ha; reflexivity].
    + rewrite Hnull in Hrun. discriminate.
Qed.

Lemma kernel_calls_accumulate_in_order_witness :
  ∃ (o' : Options.t) (new : list Options.KernelRegistrationConfig),
    chain_calls
      [ Options.kernel (Some DispatchKey.CPU)
          (KernelFunction.makeFromUnboxedFunction Demo.my_kernel_cpu)
          (@detail.inferFunctionSchemaFromFunctor Demo.model
             (WrapFunctionIntoFunctor (ctype Demo.my_kernel_cpu)));
        Options.kernel None
          (KernelFunction.makeFromUnboxedLambda false Demo.stateless_lambda)
          (@detail.inferFunctionSchemaFromFunctor Demo.model
             (WrapFunctionIntoRuntimeFunctor (ctype Demo.stateless_lambda))) ]
      Demo.options_cuda
    = (Ok tt, o')
    ∧ Options.kernels o' = Options.kernels Demo.options_cuda ++ new
    ∧ Options.dispatch_key <$> new = [Some DispatchKey.CPU; None].
Proof.
  set (ms := [ Options.kernel (Some DispatchKey.CPU)
                 (KernelFunction.makeFromUnboxedFunction Demo.my_kernel_cpu)
                 (@detail.inferFunctionSchemaFromFunctor Demo.model
                    (WrapFunctionIntoFunctor (ctype Demo.my_kernel_cpu)));
               Options.kernel None
                 (KernelFunction.makeFromUnboxedLambda false Demo.stateless_lambda)
                 (@detail.inferFunctionSchemaFromFunctor Demo.model
                    (WrapFunctionIntoRuntimeFunctor (ctype Demo.stateless_lambda))) ]).
  assert (Forall2 (fun p m => @call_path Demo.model p = Accepted m)
            [ kernel_function_path Demo.my_kernel_cpu DispatchKey.CPU;
              catchAllKernel_lambda_path Demo.stateless_lambda ] ms) as Hall
    by (repeat constructor).
  destruct (@kernel_calls_accumulate_in_order Demo.model _ ms Demo.options_cuda
              (snd (chain_calls ms Demo.options_cuda)) Hall eq_refl)
    as (new & Hk & Hkeys & _).
  exists (snd (chain_calls ms Demo.options_cuda)), new.
  split; [reflexivity |]. split; [exact Hk | exact Hkeys].
Defined.

(** ** The kernel entry points: what each one lets through *)

(** Case analysis on every type trait and null flag in sight. *)
Ltac case_traits :=
  repeat match goal with
         | H : context [is_function_type ?T] |- _ => destruct (is_function_type T)
         | H : context [is_functor ?T] |- _ => destruct (is_functor T)
         | H : context [is_stateless_lambda ?T] |- _ => destruct (is_stateless_lambda T)
         | H : context [is_base_of_OperatorKernel ?T] |- _ =>
             destruct (is_base_of_OperatorKernel T)
         | H : context [is_BoxedKernelFunction ?s] |- _ => destruct (is_BoxedKernelFunction s)
         | H : context [is_nullptr ?f] |- _ => destruct (is_nullptr f)
         | |- context [is_function_type ?T] => destruct (is_function_type T)
         | |- context [is_functor ?T] => destruct (is_functor T)
         | |- context [is_stateless_lambda ?T] => destruct (is_stateless_lambda T)
         | |- context [is_base_of_OperatorKernel ?T] => destruct (is_base_of_OperatorKernel T)
         | |- context [is_BoxedKernelFunction ?s] => destruct (is_BoxedKernelFunction s)
         | |- context [is_nullptr ?f] => destruct (is_nullptr f)
         end;
  simpl in *.

Ltac unfold_paths :=
  unfold Options.kernel_boxed, Options.catchAllKernel_boxed,
    Options.kernel_functor, Options.catchAllKernel_functor,
    Options.kernel_function, Options.catchAllKernel_function,
    Options.kernel_runtime_function, Options.catchAllKernel_runtime_function,
    Options.impl_unboxedOnlyKernel, Options.impl_unboxedOnlyCatchAllKernel,
    Options.kernel_lambda, Options.catchAllKernel_lambda in *.

(** X3.  Each [catchAllKernel] / [impl_unboxedOnlyCatchAllKernel] form is
    the keyed form without the key: for the same callable it gets the same
    compile-time verdict, at run time it succeeds or throws exactly when the
    keyed form does, and the configuration it appends has the same kernel
    function and the same inferred schema, with no dispatch key. *)
Theorem catchAllKernel_mirrors_kernel `{SchemaModel} (p : KernelPath) :
  verdict (call_path (catchAll_of p)) = verdict (call_path p)
  ∧ ∀ (m m' : M Options.t unit) (o : Options.t),
      call_path p = Accepted m →
      call_path (catchAll_of p) = Accepted m' →
      fst (m' o) = fst (m o)
      ∧ ∀ o1 : Options.t,
          m o = (Ok tt, o1) →
          ∃ c : Options.KernelRegistrationConfig,
            o1 = Options.push_back c o
            ∧ Options.dispatch_key c = path_key p
            ∧ m' o
              = (Ok tt,
                 Options.push_back
                   {| Options.dispatch_key := None;
                      Options.func := Options.func c;
                      Options.inferred_function_schema := Options.inferred_function_schema c |}
                   o).
Proof.
  split.
  - destruct p; simpl; try reflexivity;
      unfold Options.kernel_boxed, Options.catchAllKernel_boxed,
        Options.kernel_functor, Options.catchAllKernel_functor,
        Options.kernel_function, Options.catchAllKernel_function,
        Options.kernel_runtime_function, Options.catchAllKernel_runtime_function,
        Options.impl_unboxedOnlyKernel, Options.impl_unboxedOnlyCatchAllKernel,
        Options.kernel_lambda, Options.catchAllKernel_lambda;
      repeat match goal with
             | |- context [if ?b then _ else _] => destruct b; simpl
             end; reflexivity.
  - intros m m' o Hm Hm'.
    destruct p; simpl in Hm, Hm';
      unfold Options.kernel_boxed, Options.catchAllKernel_boxed,
        Options.kernel_functor, Options.catchAllKernel_functor,
        Options.kernel_function, Options.catchAllKernel_function,
        Options.kernel_runtime_function, Options.catchAllKernel_runtime_function,
        Options.impl_unboxedOnlyKernel, Options.impl_unboxedOnlyCatchAllKernel,
        Options.kernel_lambda, Options.catchAllKernel_lambda in Hm, Hm';
      repeat match type of Hm with
             | (if ?b then _ else _) = _ => destruct b; simpl in Hm, Hm'; try discriminate
             end;
      inversion Hm; inversion Hm'; subst m m'; clear Hm Hm';
      run_M;
      repeat match goal with
             | |- context [if ?b then _ else _] => destruct b; simpl
             end;
      (split; [reflexivity |]); intros o1 Ho1; inversion Ho1;
      eexists; (split; [reflexivity |]); split; reflexivity.
Qed.

Lemma catchAllKernel_mirrors_kernel_witness :
  ∃ c : Options.KernelRegistrationConfig,
    Options.dispatch_key c = Some DispatchKey.CPU
    ∧ Options.kernel None (KernelFunction.makeFromUnboxedLambda false Demo.stateless_lambda)
        (@detail.inferFunctionSchemaFromFunctor Demo.model
           (WrapFunctionIntoRuntimeFunctor (ctype Demo.stateless_lambda)))
        Options.Options_
      = (Ok tt,
         Options.push_back
           {| Options.dispatch_key := None;
              Options.func := Options.func c;
              Options.inferred_function_schema := Options.inferred_function_schema c |}
           Options.Options_).
Proof.
  destruct (@catchAllKernel_mirrors_kernel Demo.model
              (kernel_lambda_path DispatchKey.CPU Demo.stateless_lambda)) as (_ & Hrun).
  destruct (Hrun _ _ Options.Options_ eq_refl eq_refl) as (_ & Hcfg).
  destruct (Hcfg _ eq_refl) as (c & _ & Hkey & Hcatch).
  exists c. split; [exact Hkey | exact Hcatch].
Defined.

Lemma null_function_pointer_throws `{SchemaModel} (p : KernelPath) (f : Callable)
    (m : M Options.t unit) :
  function_pointer_path p = true →
  path_callable p = Some f →
  is_nullptr f = true →
  call_path p = Accepted m →
  (∀ o : Options.t, m o = (Throw KernelFunctionNull, o))
  ∧ (p = kernel_runtime_function_path (default DispatchKey.CatchAll (path_key p)) f
     ∨ p = catchAllKernel_runtime_function_path f).
Proof.
  intros Hfp Hf Hnull Hcall.
  destruct p; try discriminate Hfp; simpl in Hf; inversion Hf; subst f;
    simpl in Hcall |- *;
    unfold Options.kernel_function, Options.catchAllKernel_function,
      Options.kernel_runtime_function, Options.catchAllKernel_runtime_function,
      Options.impl_unboxedOnlyKernel, Options.impl_unboxedOnlyCatchAllKernel in Hcall;
    rewrite ?Hnull in Hcall;
    destruct (is_function_type _); simpl in Hcall; try discriminate;
    destruct (is_BoxedKernelFunction _); simpl in Hcall; try discriminate;
    inversion Hcall; subst m;
    (split; [intros o; run_M; reflexivity | eauto]).
Qed.

(** X5.  A null function pointer is never registered through the typed
    function-pointer entry points.  Where the pointer is a template argument
    ([kernel<FuncType, kernel_func>], [impl_unboxedOnlyKernel] and their
    catch-all forms) the call does not compile; where it is a run-time
    argument ([kernel(DispatchKey, FuncType* )], [catchAllKernel(FuncType* )])
    the call throws the internal assertion and leaves the builder as it was.
    So whenever one of these calls succeeds, the pointer was not null. *)
Theorem null_function_pointer_never_registered `{SchemaModel} (p : KernelPath)
    (f : Callable) :
  function_pointer_path p = true →
  path_callable p = Some f →
  (∀ (m : M Options.t unit) (o o' : Options.t),
     call_path p = Accepted m → m o = (Ok tt, o') → is_nullptr f = false)
  ∧ (is_nullptr f = true →
     ∀ m : M Options.t unit,
       call_path p = Accepted m →
       (∀ o : Options.t, m o = (Throw KernelFunctionNull, o))
       ∧ classify KernelFunctionNull = InternalAssertFailure
       ∧ (p = kernel_runtime_function_path (default DispatchKey.CatchAll (path_key p)) f
          ∨ p = catchAllKernel_runtime_function_path f)).
Proof.
  intros Hfp Hf. split.
  - intros m o o' Hcall Hrun.
    destruct (is_nullptr f) eqn:Hnull; [| reflexivity].
    destruct (null_function_pointer_throws p f m Hfp Hf Hnull Hcall) as [Hthrow _].
    rewrite Hthrow in Hrun. discriminate.
  - intros Hnull m Hcall.
    destruct (null_function_pointer_throws p f m Hfp Hf Hnull Hcall) as [Hthrow Hwhich].
    split; [exact Hthrow |]. split; [reflexivity | exact Hwhich].
Qed.

Lemma null_function_pointer_never_registered_witness :
  is_nullptr Demo.my_kernel_cpu = false.
Proof.
  destruct (@null_function_pointer_never_registered Demo.model
              (kernel_runtime_function_path DispatchKey.CPU Demo.my_kernel_cpu)
              Demo.my_kernel_cpu eq_refl eq_refl) as (Hnever & _).
  exact (Hnever _ Options.Options_ _ eq_refl eq_refl).
Defined.

(** X6.  A function with the stack based signature [BoxedKernelFunction]
    gets into a builder only through the internal boxed entry points, and
    those take nothing else: for every accepted call other than the functor
    forms, the callable has the boxed signature exactly when the call is
    [kernel<kernel_func>] or [catchAllKernel<kernel_func>].  The legacy
    [op(schemaOrName, func)] shorthand is not viable for it either. *)
Theorem boxed_signature_only_through_boxed_paths `{SchemaModel} :
  (∀ (p : KernelPath) (m : M Options.t unit),
     call_path p = Accepted m →
     functor_path p = false →
     is_BoxedKernelFunction (signature (path_type p)) = boxed_path p)
  ∧ (∀ (p : KernelPath) (m : M Options.t unit),
       call_path p = Accepted m →
       boxed_path p = true →
       is_function_type (path_type p) = true
       ∧ ∀ o : Options.t,
           ∃ c : Options.KernelRegistrationConfig,
             m o = (Ok tt, Options.push_back c o)
             ∧ Options.inferred_function_schema c = None
             ∧ ∃ f : Callable,
                 path_callable p = Some f
                 ∧ Options.func c = KernelFunction.makeFromBoxedFunction f)
  ∧ (∀ (build : BuildConfig) (schemaOrName : string) (f : Callable) (options : Options.t),
       is_BoxedKernelFunction (signature (ctype f)) = true →
       RegisterOperators.op_function_pointer build schemaOrName f options = NotViable).
Proof.
  split; [| split].
  - intros p m Hcall Hnf.
    destruct p; try discriminate Hnf; simpl in Hcall |- *; unfold_paths;
      case_traits; first [discriminate | reflexivity].
  - intros p m Hcall Hb.
    destruct p; try discriminate Hb; simpl in Hcall |- *; unfold_paths;
      case_traits; try discriminate;
      inversion Hcall; subst m;
      (split; [reflexivity |]); intros o; eexists;
      (split; [reflexivity |]); (split; [reflexivity |]); eauto.
  - intros build schemaOrName f options Hb. unfold RegisterOperators.op_function_pointer.
    rewrite Hb. by rewrite andb_false_r.
Qed.

Lemma boxed_signature_only_through_boxed_paths_witness :
  is_BoxedKernelFunction (signature (ctype Demo.boxed_kernel)) = true
  ∧ is_BoxedKernelFunction (signature (ctype Demo.my_kernel_cpu)) = false
  ∧ @RegisterOperators.op_function_pointer Demo.model Demo.desktop "my_op"
      Demo.boxed_kernel Options.Options_
    = NotViable.
Proof.
  destruct (@boxed_signature_only_through_boxed_paths Demo.model) as (Hsig & _ & Hop).
  split; [| split].
  - exact (Hsig (kernel_boxed_path Demo.boxed_kernel DispatchKey.CPU) _ eq_refl eq_refl).
  - exact (Hsig (kernel_function_path Demo.my_kernel_cpu DispatchKey.CPU) _ eq_refl eq_refl).
  - apply Hop. reflexivity.
Defined.

(** X7.  The functor entry points and the lambda entry points never accept
    the same type.  [kernel<Functor>] and [catchAllKernel<Functor>] compile
    exactly for a constructible functor class that derives from
    [OperatorKernel]; [kernel(key, lambda)] and [catchAllKernel(lambda)]
    compile exactly for a stateless lambda that does not derive from it and
    does not have the stack based signature. *)
Theorem functor_and_lambda_entry_points_disjoint `{SchemaModel} (c : Callable)
    (is_constructible : bool) (k k' : DispatchKey.t) (ps : list string) :
  let T := ctype c in
  is_Accepted (Options.kernel_functor T is_constructible k ps)
  = is_functor T && is_base_of_OperatorKernel T && is_constructible
  ∧ is_Accepted (Options.catchAllKernel_functor T is_constructible ps)
    = is_functor T && is_base_of_OperatorKernel T && is_constructible
  ∧ is_Accepted (Options.kernel_lambda k' c)
    = is_functor T && negb (is_BoxedKernelFunction (signature T))
      && negb (is_base_of_OperatorKernel T) && is_stateless_lambda T
  ∧ is_Accepted (Options.catchAllKernel_lambda c)
    = is_functor T && negb (is_BoxedKernelFunction (signature T))
      && negb (is_base_of_OperatorKernel T) && is_stateless_lambda T
  ∧ is_Accepted (Options.kernel_functor T is_constructible k ps)
    && is_Accepted (Options.kernel_lambda k' c) = false
  ∧ is_Accepted (Options.catchAllKernel_functor T is_constructible ps)
    && is_Accepted (Options.catchAllKernel_lambda c) = false.
Proof.
  simpl. unfold_paths. destruct is_constructible; case_traits; repeat split.
Qed.

(** X4.  The overloads of the legacy [op(schemaOrName, callable, options)]
    never compete.  The function pointer overload compiles exactly for a
    function type other than the stack based one.  The two lambda overloads
    take their callable by forwarding reference and ask [guts::is_functor] of
    the deduced type: passed as an lvalue, no callable is viable for either of
    them; passed as an rvalue, the regular one compiles exactly for stateless
    lambdas and the deprecated one exactly for the other functors, none of
    them for a class deriving from [OperatorKernel].  So the two never both
    compile, and exactly one of them does for every rvalue of a functor type
    that does not derive from [OperatorKernel]. *)
Theorem op_overloads_exclusive `{SchemaModel} (build : BuildConfig) (schemaOrName : string)
    (category : ValueCategory) (f : Callable) (options : Options.t) :
  let T := ctype f in
  let as_rvalue := bool_decide (category = rvalue) in
  is_Accepted (RegisterOperators.op_function_pointer build schemaOrName f options)
  = is_function_type T && negb (is_BoxedKernelFunction (signature T))
  ∧ is_Accepted (RegisterOperators.op_lambda build schemaOrName category f options)
    = as_rvalue && is_functor T && is_stateless_lambda T && negb (is_base_of_OperatorKernel T)
  ∧ is_Accepted (RegisterOperators.op_stateful_lambda build schemaOrName category f options)
    = as_rvalue && is_functor T && negb (is_stateless_lambda T)
      && negb (is_base_of_OperatorKernel T)
  ∧ is_Accepted (RegisterOperators.op_lambda build schemaOrName category f options)
    && is_Accepted (RegisterOperators.op_stateful_lambda build schemaOrName category f options)
    = false
  ∧ xorb (is_Accepted (RegisterOperators.op_lambda build schemaOrName category f options))
         (is_Accepted (RegisterOperators.op_stateful_lambda build schemaOrName category f
                         options))
    = as_rvalue && is_functor T && negb (is_base_of_OperatorKernel T)
  ∧ RegisterOperators.op_lambda build schemaOrName lvalue f options = NotViable
  ∧ RegisterOperators.op_stateful_lambda build schemaOrName lvalue f options = NotViable.
Proof.
  simpl.
  unfold RegisterOperators.op_function_pointer, RegisterOperators.op_lambda,
    RegisterOperators.op_stateful_lambda, is_functor_undecayed,
    is_base_of_OperatorKernel_undecayed.
  destruct category; simpl; case_traits; repeat split.
Qed.

(** ** [CppFunction] and [c10::dispatch] *)

(** X8.  Tagging with [c10::dispatch] is last-one-wins: dispatching an
    already dispatched function under a second key gives what dispatching the
    original callable under the second key gives, so with [CatchAll] as the
    second key the earlier key is cleared.  Re-tagging a [CppFunction] always
    compiles and changes nothing but the key. *)
Theorem dispatch_last_key_wins `{SchemaModel} (k1 k2 : DispatchKey.t)
    (raw_f : CppFunction.Func) :
  Compile_bind (dispatch k1 raw_f) (fun f => dispatch k2 (CppFunction.Wrapped f))
  = dispatch k2 raw_f
  ∧ ∀ f : CppFunction.t,
      ∃ f' : CppFunction.t,
        dispatch k2 (CppFunction.Wrapped f) = Accepted f'
        ∧ CppFunction.dispatch_key_ f'
          = (if bool_decide (k2 = DispatchKey.CatchAll) then None else Some k2)
        ∧ CppFunction.func_ f' = CppFunction.func_ f
        ∧ CppFunction.schema_ f' = CppFunction.schema_ f
        ∧ CppFunction.debug_ f' = CppFunction.debug_ f.
Proof.
  split.
  - unfold dispatch.
    destruct (CppFunction.construct raw_f) as [f | | msg]; simpl; try reflexivity.
    destruct (bool_decide (k1 = DispatchKey.CatchAll)),
      (bool_decide (k2 = DispatchKey.CatchAll)); reflexivity.
  - intros f. unfold dispatch. simpl.
    destruct (bool_decide (k2 = DispatchKey.CatchAll));
      eexists; (split; [reflexivity |]); repeat split.
Qed.

(** X9.  [deviceTypeToDispatchKey] is injective where it is defined and
    never yields the catch-all sentinel: two device types with the same key
    are the same device type.  Hence a [CppFunction] made by
    [dispatch(DeviceType, f)] always carries the key of its device type, never
    none; and when that call throws, the device type is one of those without
    a key and the error names it.  Whether the call compiles depends on the
    callable alone. *)
Theorem deviceType_dispatch_is_keyed `{SchemaModel} :
  (∀ (t1 t2 : DeviceType.t) (k : DispatchKey.t),
     deviceTypeToDispatchKey t1 = Ok k → deviceTypeToDispatchKey t2 = Ok k → t1 = t2)
  ∧ (∀ (t : DeviceType.t) (k : DispatchKey.t),
       deviceTypeToDispatchKey t = Ok k → k ≠ DispatchKey.CatchAll)
  ∧ (∀ (t : DeviceType.t) (raw_f : CppFunction.Func) (f : CppFunction.t),
       dispatch_DeviceType t raw_f = Accepted (Ok f) →
       ∃ k : DispatchKey.t,
         deviceTypeToDispatchKey t = Ok k ∧ CppFunction.dispatch_key_ f = Some k)
  ∧ (∀ (t : DeviceType.t) (raw_f : CppFunction.Func) (e : Error),
       dispatch_DeviceType t raw_f = Accepted (Throw e) →
       e = DeviceTypeNotOverloadable t
       ∧ classify e = UnsupportedDeviceError
       ∧ ∃ n : nat, t = DeviceType.Other n)
  ∧ (∀ (t : DeviceType.t) (raw_f : CppFunction.Func),
       verdict (dispatch_DeviceType t raw_f) = verdict (CppFunction.construct raw_f)).
Proof.
  split; [| split; [| split; [| split]]].
  - intros t1 t2 k. destruct t1, t2; simpl; intros H1 H2;
      inversion H1; subst; inversion H2; reflexivity.
  - intros t k. destruct t; simpl; intros Hk; inversion Hk; discriminate.
  - intros t raw_f f. unfold dispatch_DeviceType, dispatch.
    destruct t; simpl;
      destruct (CppFunction.construct raw_f) as [f0 | | msg]; simpl;
      intros Heq; inversion Heq; eexists; split; reflexivity.
  - intros t raw_f e. unfold dispatch_DeviceType, dispatch.
    destruct t; simpl;
      destruct (CppFunction.construct raw_f) as [f0 | | msg]; simpl;
      intros Heq; inversion Heq.
    split; [reflexivity |]. split; [reflexivity | eauto].
  - intros t raw_f. unfold dispatch_DeviceType, dispatch, verdict.
    destruct t; simpl;
      destruct (CppFunction.construct raw_f) as [f0 | | msg]; reflexivity.
Qed.

Lemma deviceType_dispatch_is_keyed_witness :
  ∃ f : CppFunction.t,
    @dispatch_DeviceType Demo.model DeviceType.CUDA (CppFunction.Raw Demo.my_kernel_cpu)
    = Accepted (Ok f)
    ∧ CppFunction.dispatch_key_ f = Some DispatchKey.CUDA.
Proof.
  eexists. split; [reflexivity |].
  destruct (@deviceType_dispatch_is_keyed Demo.model) as (_ & _ & Hkeyed & _).
  destruct (Hkeyed DeviceType.CUDA (CppFunction.Raw Demo.my_kernel_cpu) _ eq_refl)
    as (k & Hk & Hf).
  inversion Hk. subst k. exact Hf.
Defined.

(** ** [Library] *)

(** X10.  [Library::impl(name, deviceType, f)] is [impl(name, key, f)] for
    the dispatch key of the device type.  For a device type without a key
    the call throws the unsupported-device error before the private [_impl] is
    reached: whatever [_impl] is, the library and the dispatcher are left as
    they were. *)
Theorem Library_impl_checks_device_type_first `{SchemaModel}
    (_impl : string -> CppFunction.t -> M Library.state unit) (name : string)
    (t : DeviceType.t) (raw_f : CppFunction.Func) :
  (∀ k : DispatchKey.t,
     deviceTypeToDispatchKey t = Ok k →
     Library.impl_DeviceType _impl name t raw_f = Library.impl_DispatchKey _impl name k raw_f)
  ∧ (∀ (n : nat) (m : M Library.state unit),
       t = DeviceType.Other n →
       Library.impl_DeviceType _impl name t raw_f = Accepted m →
       ∀ st : Library.state, m st = (Throw (DeviceTypeNotOverloadable t), st)).
Proof.
  split.
  - intros k Hk. unfold Library.impl_DeviceType, Library.impl_DispatchKey, dispatch_DeviceType.
    rewrite Hk. destruct (dispatch k raw_f) as [f | | msg]; reflexivity.
  - intros n m -> Hm st. unfold Library.impl_DeviceType, dispatch_DeviceType in Hm.
    simpl in Hm. destruct (CppFunction.construct raw_f) as [f | | msg]; simpl in Hm;
      inversion Hm. reflexivity.
Qed.

Lemma Library_impl_checks_device_type_first_witness :
  @Library.impl_DeviceType Demo.model (fun _ _ => ret tt) "my_op" DeviceType.XLA
    (CppFunction.Raw Demo.stateless_lambda)
  = @Library.impl_DispatchKey Demo.model (fun _ _ => ret tt) "my_op" DispatchKey.XLA
      (CppFunction.Raw Demo.stateless_lambda).
Proof.
  destruct (@Library_impl_checks_device_type_first Demo.model (fun _ _ => ret tt) "my_op"
              DeviceType.XLA (CppFunction.Raw Demo.stateless_lambda)) as (Hkey & _).
  apply Hkey. reflexivity.
Defined.

(** X11.  [Library::def] parses before it registers.  For a schema text,
    [def(text)] hands the private [_def] the parsed schema with its alias
    analysis kind set to [FROM_SCHEMA]; [def(text, f)] hands on the parsed
    name unchanged, or the parsed schema with the kind set to [FROM_SCHEMA],
    together with the [CppFunction] of [f].  When the text does not parse the
    parser's error comes out and nothing is registered, whatever the private
    functions are. *)
Theorem Library_def_parses_first `{SchemaModel}
    (_def : FunctionSchema -> M Library.state unit)
    (_def_with_function : OperatorName + FunctionSchema -> CppFunction.t -> M Library.state unit)
    (text : string) (st : Library.state) :
  (∀ e : Error, parseSchema text = Throw e → Library.def _def text st = (Throw e, st))
  ∧ (∀ s : FunctionSchema,
       parseSchema text = Ok s →
       Library.def _def text st = _def (setAliasAnalysis FROM_SCHEMA s) st)
  ∧ (∀ (raw_f : CppFunction.Func) (m : M Library.state unit),
       Library.def_with_function _def_with_function text raw_f = Accepted m →
       ∃ f : CppFunction.t,
         CppFunction.construct raw_f = Accepted f
         ∧ (∀ e : Error, parseSchemaOrName text = Throw e → m st = (Throw e, st))
         ∧ (∀ n : OperatorName,
              parseSchemaOrName text = Ok (inl n) → m st = _def_with_function (inl n) f st)
         ∧ (∀ s : FunctionSchema,
              parseSchemaOrName text = Ok (inr s) →
              m st = _def_with_function (inr (setAliasAnalysis FROM_SCHEMA s)) f st)).
Proof.
  split; [| split].
  - intros e He. unfold Library.def, schema, schema_with_kind. run_M.
    rewrite He. reflexivity.
  - intros s Hs. unfold Library.def, schema, schema_with_kind. run_M.
    rewrite Hs. reflexivity.
  - intros raw_f m. unfold Library.def_with_function.
    destruct (CppFunction.construct raw_f) as [f | | msg]; simpl; try discriminate.
    intros Hm. inversion Hm. subst m. exists f. split; [reflexivity |].
    unfold constructSchemaOrName. run_M.
    split; [| split].
    + intros e He. rewrite He. reflexivity.
    + intros n Hn. rewrite Hn. reflexivity.
    + intros s Hs. rewrite Hs. reflexivity.
Qed.

Lemma Library_def_parses_first_witness :
  @Library.def Demo.model (fun _ => ret tt) "(Tensor a) -> Tensor" Demo.library_state
  = (Throw (MalformedSchema "(Tensor a) -> Tensor"), Demo.library_state)
  ∧ @Library.def Demo.model (fun s st => (Ok tt, st)) "my_op(Tensor a) -> Tensor" Demo.library_state
    = (Ok tt, Demo.library_state).
Proof.
  split.
  - destruct (@Library_def_parses_first Demo.model (fun _ => ret tt) (fun _ _ => ret tt)
                "(Tensor a) -> Tensor" Demo.library_state) as (Hthrow & _).
    apply Hthrow. reflexivity.
  - destruct (@Library_def_parses_first Demo.model (fun s st => (Ok tt, st))
                (fun _ _ => ret tt) "my_op(Tensor a) -> Tensor" Demo.library_state)
      as (_ & Hok & _).
    erewrite Hok; reflexivity.
Defined.

(** ** The legacy shorthands of [RegisterOperators] *)

Lemma with_options_Throw {S : Type} (chain : M Options.t unit) (options o1 : Options.t)
    (call : Options.t -> M S unit) (e : Error) (st : S) :
  chain options = (Throw e, o1) →
  RegisterOperators.with_options chain options call st = (Throw e, st).
Proof. intros Hc. unfold RegisterOperators.with_options. rewrite Hc. reflexivity. Qed.

(** X12.  A shorthand [op(schemaOrName, ...)] whose [schema(schemaOrName)]
    step fails does not register anything: the error of that step comes out,
    and the dispatcher and the session's handles are as they were.  This is so
    for the plain, the function pointer and both lambda shorthands, and in
    particular when the options passed in already carry a schema (the schema
    cannot be given twice, in the options and in the shorthand) and, for the
    string forms, in a build without the schema parser. *)
Theorem op_shorthand_fails_before_registering `{SchemaModel} (build : BuildConfig)
    (schemaOrName : string) (options : Options.t) (st : RegisterOperators.state) :
  (∀ (e : Error) (o1 : Options.t),
     Options.schema_string build schemaOrName options = (Throw e, o1) →
     RegisterOperators.op_string build schemaOrName options st = (Throw e, st)
     ∧ ∀ (category : ValueCategory) (f : Callable) (m : M RegisterOperators.state unit),
         (RegisterOperators.op_function_pointer build schemaOrName f options = Accepted m
          ∨ RegisterOperators.op_lambda build schemaOrName category f options = Accepted m
          ∨ RegisterOperators.op_stateful_lambda build schemaOrName category f options
            = Accepted m) →
         m st = (Throw e, st))
  ∧ (is_Some (Options.schemaOrName_ options) →
       Options.schema_string build schemaOrName options = (Throw SchemaSpecifiedTwice, options)
       ∧ ∀ schema : FunctionSchema,
           RegisterOperators.op_FunctionSchema schema options st
           = (Throw SchemaSpecifiedTwice, st))
  ∧ (Options.schemaOrName_ options = None →
       schema_parser_in_build build = false →
       Options.schema_string build schemaOrName options
       = (Throw (NoSchemaParserInBuild schemaOrName), options)).
Proof.
  split; [| split].
  - intros e o1 Hs. split.
    + unfold RegisterOperators.op_string. by eapply with_options_Throw.
    + intros category f m Hm.
      assert (RegisterOperators.op_function_pointer_options build schemaOrName f options
              = (Throw e, o1)) as Hfp.
      { unfold RegisterOperators.op_function_pointer_options.
        unfold mbind at 1, M_bind, bind. rewrite Hs. reflexivity. }
      assert (RegisterOperators.op_lambda_options build schemaOrName f options
              = (Throw e, o1)) as Hl.
      { unfold RegisterOperators.op_lambda_options.
        unfold mbind at 1, M_bind, bind. rewrite Hs. reflexivity. }
      destruct Hm as [Hm | [Hm | Hm]];
        unfold RegisterOperators.op_function_pointer, RegisterOperators.op_lambda,
          RegisterOperators.op_stateful_lambda in Hm;
        repeat match type of Hm with
               | (if ?b then _ else _) = _ => destruct b; try discriminate
               end;
        inversion Hm; subst m; by eapply with_options_Throw.
  - intros Hset. split; [by apply schema_string_again |].
    intros schema. unfold RegisterOperators.op_FunctionSchema.
    eapply with_options_Throw. by apply schema_FunctionSchema_again.
  - intros Hnone Hb. by apply schema_string_no_parser.
Qed.

Lemma op_shorthand_fails_before_registering_witness :
  @RegisterOperators.op_string Demo.model Demo.desktop "my_other_op" Demo.options_cpu
    (Demo.registry_AB, Demo.session_B)
  = (Throw SchemaSpecifiedTwice, (Demo.registry_AB, Demo.session_B)).
Proof.
  destruct (@op_shorthand_fails_before_registering Demo.model Demo.desktop "my_other_op"
              Demo.options_cpu (Demo.registry_AB, Demo.session_B)) as (Hfail & Hset & _).
  destruct (Hset ltac:(simpl; eauto)) as (Hs & _).
  exact (proj1 (Hfail _ _ Hs)).
Defined.

(** ** The builder: order of calls *)

Lemma schema_string_Ok_iff `{SchemaModel} (build : BuildConfig) (text : string)
    (o o' : Options.t) :
  Options.schema_string build text o = (Ok tt, o')
  ↔ Options.schemaOrName_ o = None
    ∧ schema_parser_in_build build = true
    ∧ ∃ v, parseSchemaOrName text = Ok v ∧ o' = Options.set_schemaOrName_ v o.
Proof.
  split.
  - intros Hrun. pose proof (schema_string_Ok_inv build o o' text Hrun) as (Ho & v & Hv & ->).
    split; [exact Ho |]. split; [| eauto].
    destruct (schema_parser_in_build build) eqn:Hb; [reflexivity |].
    rewrite schema_string_no_parser in Hrun by done. discriminate.
  - intros (Ho & Hb & v & Hv & ->). by apply schema_string_fresh.
Qed.

Lemma aliasAnalysis_Ok_iff (k : AliasAnalysisKind) (o o' : Options.t) :
  Options.aliasAnalysis k o = (Ok tt, o')
  ↔ Options.aliasAnalysisKind_ o = None ∧ o' = Options.set_aliasAnalysisKind_ k o.
Proof.
  split.
  - intros Hrun. destruct (Options.aliasAnalysisKind_ o) as [x |] eqn:Ho.
    + rewrite aliasAnalysis_again in Hrun by (rewrite Ho; eauto). discriminate.
    + rewrite aliasAnalysis_fresh in Hrun by done. inversion Hrun. done.
  - intros [Ho ->]. by apply aliasAnalysis_fresh.
Qed.

Lemma seq_Ok_iff (m1 m2 : M Options.t unit) (o o' : Options.t) :
  (m1;; m2) o = (Ok tt, o') ↔ ∃ o1, m1 o = (Ok tt, o1) ∧ m2 o1 = (Ok tt, o').
Proof.
  unfold mbind, M_bind, bind. destruct (m1 o) as [[[] | e] o1]; split.
  - intros Hrun. eauto.
  - intros (o2 & Heq & Hrun). inversion Heq. by subst.
  - discriminate.
  - intros (o2 & Heq & _). discriminate.
Qed.

(** X13.  The calls that configure a builder can be made in any order.  For
    [schema(text)], [aliasAnalysis(kind)] and any accepted kernel call, taking
    two of them in one order succeeds exactly when taking them in the other
    order does, and the builder that results is the same. *)
Theorem builder_calls_commute `{SchemaModel} (build : BuildConfig) (text : string)
    (kind : AliasAnalysisKind) (p : KernelPath) (m : M Options.t unit) (o o' : Options.t) :
  call_path p = Accepted m →
  ((Options.schema_string build text;; Options.aliasAnalysis kind) o = (Ok tt, o')
   ↔ (Options.aliasAnalysis kind;; Options.schema_string build text) o = (Ok tt, o'))
  ∧ ((Options.schema_string build text;; m) o = (Ok tt, o')
     ↔ (m;; Options.schema_string build text) o = (Ok tt, o'))
  ∧ ((Options.aliasAnalysis kind;; m) o = (Ok tt, o')
     ↔ (m;; Options.aliasAnalysis kind) o = (Ok tt, o')).
Proof.
  intros Hp.
  destruct (call_path_run p m Hp) as (config & _ & Hm).
  split; [| split]; rewrite !seq_Ok_iff.
  - split.
    + intros (o1 & Hs & Ha). apply schema_string_Ok_iff in Hs as (Ho & Hb & v & Hv & ->).
      apply aliasAnalysis_Ok_iff in Ha as [Hk ->].
      exists (Options.set_aliasAnalysisKind_ kind o). split.
      * by apply aliasAnalysis_Ok_iff.
      * apply schema_string_Ok_iff. simpl. eauto 10.
    + intros (o1 & Ha & Hs). apply aliasAnalysis_Ok_iff in Ha as [Hk ->].
      apply schema_string_Ok_iff in Hs as (Ho & Hb & v & Hv & ->).
      exists (Options.set_schemaOrName_ v o). split.
      * apply schema_string_Ok_iff. eauto 10.
      * by apply aliasAnalysis_Ok_iff.
  - destruct Hm as [Hm | [Hm _]].
    + split.
      * intros (o1 & Hs & Hk). apply schema_string_Ok_iff in Hs as (Ho & Hb & v & Hv & ->).
        rewrite Hm in Hk. inversion Hk. subst o'.
        exists (Options.push_back config o). split; [apply Hm |].
        apply schema_string_Ok_iff. simpl. eauto 10.
      * intros (o1 & Hk & Hs). rewrite Hm in Hk. inversion Hk. subst o1.
        apply schema_string_Ok_iff in Hs as (Ho & Hb & v & Hv & ->).
        exists (Options.set_schemaOrName_ v o). split; [apply schema_string_Ok_iff; eauto 10 |].
        apply Hm.
    + split.
      * intros (o1 & _ & Hk). rewrite Hm in Hk. discriminate.
      * intros (o1 & Hk & _). rewrite Hm in Hk. discriminate.
  - destruct Hm as [Hm | [Hm _]].
    + split.
      * intros (o1 & Ha & Hk). apply aliasAnalysis_Ok_iff in Ha as [Ho ->].
        rewrite Hm in Hk. inversion Hk. subst o'.
        exists (Options.push_back config o). split; [apply Hm |].
        by apply aliasAnalysis_Ok_iff.
      * intros (o1 & Hk & Ha). rewrite Hm in Hk. inversion Hk. subst o1.
        apply aliasAnalysis_Ok_iff in Ha as [Ho ->].
        exists (Options.set_aliasAnalysisKind_ kind o). split; [by apply aliasAnalysis_Ok_iff |].
        apply Hm.
    + split.
      * intros (o1 & _ & Hk). rewrite Hm in Hk. discriminate.
      * intros (o1 & Hk & _). rewrite Hm in Hk. discriminate.
Qed.

Lemma builder_calls_commute_witness :
  (Options.kernel (Some DispatchKey.CPU)
     (KernelFunction.makeFromUnboxedLambda false Demo.stateless_lambda)
     (@detail.inferFunctionSchemaFromFunctor Demo.model
        (WrapFunctionIntoRuntimeFunctor (ctype Demo.stateless_lambda)));;
   @Options.schema_string Demo.model Demo.desktop "my_op") Options.Options_
  = (@Options.schema_string Demo.model Demo.desktop "my_op";;
     Options.kernel (Some DispatchKey.CPU)
       (KernelFunction.makeFromUnboxedLambda false Demo.stateless_lambda)
       (@detail.inferFunctionSchemaFromFunctor Demo.model
          (WrapFunctionIntoRuntimeFunctor (ctype Demo.stateless_lambda)))) Options.Options_.
Proof.
  destruct (@builder_calls_commute Demo.model Demo.desktop "my_op" CONSERVATIVE
              (kernel_lambda_path DispatchKey.CPU Demo.stateless_lambda) _
              Options.Options_
              (snd ((@Options.schema_string Demo.model Demo.desktop "my_op";;
                     Options.kernel (Some DispatchKey.CPU)
                       (KernelFunction.makeFromUnboxedLambda false Demo.stateless_lambda)
                       (@detail.inferFunctionSchemaFromFunctor Demo.model
                          (WrapFunctionIntoRuntimeFunctor (ctype Demo.stateless_lambda))))
                      Options.Options_))
              eq_refl) as (_ & Hsk & _).
  rewrite (proj1 Hsk eq_refl). reflexivity.
Defined.

(** X14.  The two overloads of [schema(...)] agree: when the build has the
    parser and a text parses to a full schema, [schema(text)] does on every
    builder what [schema(FunctionSchema)] does with the parsed schema, the
    failure on a builder that already has a schema included. *)
Theorem schema_overloads_agree `{SchemaModel} (build : BuildConfig) (text : string)
    (s : FunctionSchema) (o : Options.t) :
  schema_parser_in_build build = true →
  parseSchemaOrName text = Ok (inr s) →
  Options.schema_string build text o = Options.schema_FunctionSchema s o.
Proof.
  intros Hb Hp. destruct (Options.schemaOrName_ o) as [x |] eqn:Ho.
  - rewrite schema_string_again, schema_FunctionSchema_again by (rewrite Ho; eauto).
    reflexivity.
  - rewrite (schema_string_fresh build o text (inr s)), schema_FunctionSchema_fresh by done.
    reflexivity.
Qed.

Lemma schema_overloads_agree_witness :
  @Options.schema_string Demo.model Demo.desktop "my_op(Tensor a) -> Tensor" Demo.options_cpu
  = Options.schema_FunctionSchema
      {| schema_name := Demo.my_op;
         arguments := ["Tensor a) -> Tensor"];
         returns := [];
         aliasAnalysisKind := CONSERVATIVE |}
      Demo.options_cpu.
Proof.
  apply (@schema_overloads_agree Demo.model); reflexivity.
Defined.

(** X15.  The header documents [op("my_op", lambda)] as equivalent to
    [op("my_op", options().catchAllKernel(lambda))].  As the code has it, for
    a lambda that [catchAllKernel] accepts the two builder chains succeed on
    the same builders and fail with the same error, and the options they
    build have the same schema, the same earlier kernels and a last kernel
    with no dispatch key and the same inferred schema; the kernel function of
    the shorthand is made with legacy types allowed, that of [catchAllKernel]
    is not. *)
Theorem op_lambda_is_catchAllKernel_with_legacy_types `{SchemaModel} (build : BuildConfig)
    (schemaOrName : string) (lambda : Callable) (m : M Options.t unit) (options : Options.t) :
  Options.catchAllKernel_lambda lambda = Accepted m →
  fst (RegisterOperators.op_lambda_options build schemaOrName lambda options)
  = fst ((Options.schema_string build schemaOrName;; m) options)
  ∧ ∀ built : Options.t,
      RegisterOperators.op_lambda_options build schemaOrName lambda options = (Ok tt, built) →
      ∃ (v : OperatorName + FunctionSchema) (inferred : option FunctionSchema),
        built
        = Options.push_back
            {| Options.dispatch_key := None;
               Options.func := KernelFunction.makeFromUnboxedLambda true lambda;
               Options.inferred_function_schema := inferred |}
            (Options.set_schemaOrName_ v options)
        ∧ (Options.schema_string build schemaOrName;; m) options
          = (Ok tt,
             Options.push_back
               {| Options.dispatch_key := None;
                  Options.func := KernelFunction.makeFromUnboxedLambda false lambda;
                  Options.inferred_function_schema := inferred |}
               (Options.set_schemaOrName_ v options)).
Proof.
  intros Hm. unfold Options.catchAllKernel_lambda in Hm.
  repeat match type of Hm with
         | (if ?b then _ else _) = _ => destruct b; try discriminate
         end.
  inversion Hm. subst m. clear Hm.
  unfold RegisterOperators.op_lambda_options.
  unfold mbind, M_bind, bind.
  destruct (Options.schema_string build schemaOrName options) as [[[] | e] o1] eqn:Hs.
  - apply schema_string_Ok_inv in Hs as (_ & v & _ & ->).
    split; [reflexivity |]. intros built Hb. rewrite kernel_appends in Hb.
    inversion Hb. do 2 eexists. split; reflexivity.
  - split; [reflexivity |]. intros built Hb. discriminate.
Qed.

Lemma op_lambda_is_catchAllKernel_with_legacy_types_witness :
  ∃ (v : OperatorName + FunctionSchema) (inferred : option FunctionSchema),
    (@Options.schema_string Demo.model Demo.desktop "my_op";;
     Options.kernel None
       (KernelFunction.makeFromUnboxedLambda false Demo.stateless_lambda)
       (@detail.inferFunctionSchemaFromFunctor Demo.model
          (WrapFunctionIntoRuntimeFunctor (ctype Demo.stateless_lambda)))) Options.Options_
    = (Ok tt,
       Options.push_back
         {| Options.dispatch_key := None;
            Options.func := KernelFunction.makeFromUnboxedLambda false Demo.stateless_lambda;
            Options.inferred_function_schema := inferred |}
         (Options.set_schemaOrName_ v Options.Options_)).
Proof.
  destruct (@op_lambda_is_catchAllKernel_with_legacy_types Demo.model Demo.desktop "my_op"
              Demo.stateless_lambda _ Options.Options_ eq_refl) as (_ & Hbuilt).
  destruct (Hbuilt _ eq_refl) as (v & inferred & _ & Hcatch).
  exists v, inferred. exact Hcatch.
Defined.
